(** * Code-Analysis-and-Report-Generation: report synthesis and task graph

    A shallow embedding of [src/codesystem/main.py] and
    [src/codesystem/crew.py].  Python strings are sequences of Unicode code
    points; dictionaries are insertion-ordered association lists; exceptions
    are values of a small error monad. *)

From Stdlib Require Import String Ascii.
From Stdlib Require Import List NArith Arith Bool Lia.
Import ListNotations.

Set Warnings "-register-all".

(** ** Python strings *)

Definition char := N.
Definition str := list char.

(** An ASCII literal of the source as a sequence of code points. *)
Definition lit (s : string) : str := map N_of_ascii (list_ascii_of_string s).

Definition NL : char := 10%N.        (* '\n' *)
Definition CR : char := 13%N.        (* '\r' *)
Definition SP : char := 32%N.        (* ' '  *)
Definition BSL : char := 92%N.       (* '\\' *)
Definition LOW_N : char := 110%N.    (* 'n'  *)
Definition LOW_T : char := 116%N.    (* 't'  *)
Definition HASH : char := 35%N.      (* '#'  *)
Definition DOT : char := 46%N.       (* '.'  *)
Definition SLASH : char := 47%N.     (* '/'  *)
Definition HYPHEN : char := 45%N.    (* '-'  *)
Definition UNDERSCORE : char := 95%N. (* '_' *)

Definition str_eqb (a b : str) : bool :=
  if list_eq_dec N.eq_dec a b then true else false.

Definition is_nil (s : str) : bool :=
  match s with
  | [] => true
  | _ :: _ => false
  end.

(** [str.isspace] on one code point: the characters [str.strip()] removes. *)
Definition isspace (c : char) : bool :=
  ((9 <=? c) && (c <=? 13) || (28 <=? c) && (c <=? 32)
   || (c =? 133) || (c =? 160) || (c =? 5760)
   || (8192 <=? c) && (c <=? 8202)
   || (c =? 8232) || (c =? 8233) || (c =? 8239) || (c =? 8287)
   || (c =? 12288))%N.

Fixpoint lstrip (s : str) : str :=
  match s with
  | [] => []
  | c :: t => if isspace c then lstrip t else s
  end.

Definition rstrip (s : str) : str := rev (lstrip (rev s)).

(** [s.strip()] *)
Definition strip (s : str) : str := rstrip (lstrip s).

(** ** The fragment of [re] the source uses

    Every pattern of the source is a sequence of one-character items, each
    optionally under a greedy [+]: [r'\\n'], [r'\\t'], [r'\n+'] and
    [r'[^\w\-_]']. *)

Inductive atom :=
| One (p : char -> bool)      (* a literal or a character class *)
| Many (p : char -> bool).    (* the same under a greedy [+] *)

Definition regex := list atom.

(** Length of the match of [r] at the start of [s], if any.  A [+] first
    takes as many characters as it can and gives them back one by one when
    the rest of the pattern fails. *)
Fixpoint re_match (r : regex) (s : str) {struct r} : option nat :=
  match r with
  | [] => Some 0
  | One p :: r' =>
      match s with
      | c :: t => if p c then option_map S (re_match r' t) else None
      | [] => None
      end
  | Many p :: r' =>
      (fix more (s : str) : option nat :=
         match s with
         | c :: t =>
             if p c then
               match more t with
               | Some k => Some (S k)
               | None => option_map S (re_match r' t)
               end
             else None
         | [] => None
         end) s
  end.

(** [re.sub]: scan left to right, replace each leftmost match and resume
    after it.  [skip] counts the characters of the current match still to be
    consumed. *)
Fixpoint sub_from (r : regex) (repl : str) (skip : nat) (s : str) : str :=
  match s with
  | [] => match re_match r [] with Some _ => repl | None => [] end
  | c :: t =>
      match skip with
      | S k => sub_from r repl k t
      | O =>
          match re_match r s with
          | Some O => repl ++ c :: sub_from r repl 0 t
          | Some (S k) => repl ++ sub_from r repl k t
          | None => c :: sub_from r repl 0 t
          end
      end
  end.

Definition re_sub (r : regex) (repl : str) (s : str) : str :=
  sub_from r repl 0 s.

Definition literal (s : str) : regex := map (fun c => One (N.eqb c)) s.

(** [s.replace(old, new)] *)
Definition str_replace (old new s : str) : str := re_sub (literal old) new s.

(** ** Exceptions *)

Inductive exn :=
| KeyError (key : str)
| ValueError (msg : str)
| ValidationError (model : str)   (* pydantic, raised by a crewai model *)
| OSError (msg : str)
| RuntimeError (msg : str).

Inductive result (A : Type) :=
| Ok (a : A)
| Raise (e : exn).

Arguments Ok {A} a.
Arguments Raise {A} e.

Definition bind {A B} (m : result A) (k : A -> result B) : result B :=
  match m with
  | Ok a => k a
  | Raise e => Raise e
  end.

Notation "x <- m ;; k" := (bind m (fun x => k))
  (at level 61, m at next level, right associativity).
Notation "' p <- m ;; k" := (bind m (fun x => let 'p := x in k))
  (at level 61, p pattern, m at next level, right associativity).

(** A [for] loop whose body updates the loop state and may raise. *)
Fixpoint for_each {S A} (body : S -> A -> result S) (items : list A) (st : S)
  : result S :=
  match items with
  | [] => Ok st
  | x :: rest => st' <- body st x ;; for_each body rest st'
  end.

(** ** Dictionaries

    A Python [dict] keeps insertion order; assigning to a key that is
    present overwrites its value in place. *)

Definition dict (V : Type) := list (str * V).

Fixpoint dict_get {V} (d : dict V) (k : str) : option V :=
  match d with
  | [] => None
  | (k', v) :: d' => if str_eqb k' k then Some v else dict_get d' k
  end.

(** [d.get(k, default)] *)
Definition dict_get_default {V} (d : dict V) (k : str) (default : V) : V :=
  match dict_get d k with
  | Some v => v
  | None => default
  end.

(** [d[k]] *)
Definition dict_getitem {V} (d : dict V) (k : str) : result V :=
  match dict_get d k with
  | Some v => Ok v
  | None => Raise (KeyError k)
  end.

(** [k in d] *)
Definition dict_contains {V} (d : dict V) (k : str) : bool :=
  match dict_get d k with
  | Some _ => true
  | None => false
  end.

(** [d[k] = v] *)
Fixpoint dict_set {V} (d : dict V) (k : str) (v : V) : dict V :=
  match d with
  | [] => [(k, v)]
  | (k', v') :: d' =>
      if str_eqb k' k then (k', v) :: d' else (k', v') :: dict_set d' k v
  end.

Definition dict_keys {V} (d : dict V) : list str := map fst d.
Definition dict_values {V} (d : dict V) : list V := map snd d.

(** ** [str.split] *)

Fixpoint starts_with (pre s : str) : bool :=
  match pre, s with
  | [], _ => true
  | a :: pre', b :: s' => (a =? b)%N && starts_with pre' s'
  | _ :: _, [] => false
  end.

Definition push (c : char) (chunks : list str) : list str :=
  match chunks with
  | chunk :: rest => (c :: chunk) :: rest
  | [] => [[c]]
  end.

Definition may_split (maxsplit : option nat) : bool :=
  match maxsplit with
  | Some O => false
  | _ => true
  end.

(** [maxsplit] is [None] for an unbounded split; [skip] counts the
    characters of the current separator still to be consumed. *)
Fixpoint split_go (sep : str) (maxsplit : option nat) (skip : nat) (s : str)
  : list str :=
  match s with
  | [] => [[]]
  | c :: t =>
      match skip with
      | S k => split_go sep maxsplit k t
      | O =>
          if may_split maxsplit && starts_with sep s
          then [] :: split_go sep (option_map pred maxsplit) (pred (length sep)) t
          else push c (split_go sep maxsplit 0 t)
      end
  end.

(** [s.split(sep, maxsplit)]; an empty separator raises [ValueError]. *)
Definition str_split (sep : str) (maxsplit : option nat) (s : str)
  : result (list str) :=
  match sep with
  | [] => Raise (ValueError (lit "empty separator"))
  | _ :: _ => Ok (split_go sep maxsplit 0 s)
  end.

(** ** Values handed to the report functions

    Worker outputs are strings, or objects such as a [Task] that print as
    [repr] under [str()] and may offer a [result()] method. *)

Inductive value :=
| VStr (s : str)
| VObj (repr : str) (result_method : option value).

(** [str(v)] *)
Definition py_str (v : value) : str :=
  match v with
  | VStr s => s
  | VObj repr _ => repr
  end.

(** [bool(v)]: an empty string is falsy, an object is truthy. *)
Definition truthy (v : value) : bool :=
  match v with
  | VStr s => negb (is_nil s)
  | VObj _ _ => true
  end.

(** ** The written document (python-docx) *)

Inductive block :=
| Heading (text : str) (level : nat)
| Paragraph (text : str).

Definition document := list block.

Definition add_heading (doc : document) (text : str) (level : nat) : document :=
  doc ++ [Heading text level].

Definition add_paragraph (doc : document) (text : str) : document :=
  doc ++ [Paragraph text].

(** ** main.py *)

Definition NO_OUTPUT : str := lit "No output available".

Definition prepare_inputs (file_path : value) (code_content : value)
    (agent_outputs : dict value) : dict value :=
  [ (lit "code_to_analyze", code_content);
    (lit "file_name", VStr (py_str file_path));
    (lit "code_analysis_output",
      dict_get_default agent_outputs (lit "code_analysis_output") (VStr NO_OUTPUT));
    (lit "security_analysis_output",
      dict_get_default agent_outputs (lit "security_analysis_output") (VStr NO_OUTPUT));
    (lit "performance_analysis_output",
      dict_get_default agent_outputs (lit "performance_analysis_output") (VStr NO_OUTPUT));
    (lit "code_test_coverage",
      dict_get_default agent_outputs (lit "code_test_output") (VStr NO_OUTPUT));
    (lit "best_practices_output",
      dict_get_default agent_outputs (lit "best_practices_output") (VStr NO_OUTPUT)) ].

Definition clean_text (text : value) : str :=
  let text := py_str text in
  let text := re_sub [One (N.eqb BSL); One (N.eqb LOW_N)] [SP] text in
  let text := re_sub [One (N.eqb BSL); One (N.eqb LOW_T)] [SP; SP; SP; SP] text in
  let text := re_sub [Many (N.eqb NL)] [NL] text in
  let text := str_replace [CR] [] text in
  strip text.

(** [f"File: {inputs.get('file_name')}"]: an absent key formats as [None]. *)
Definition file_line (inputs : dict value) : str :=
  lit "File: " ++
  match dict_get inputs (lit "file_name") with
  | Some v => py_str v
  | None => lit "None"
  end.

(** [if hasattr(v, 'result'): v = v.result()] *)
Definition take_result (v : value) : value :=
  match v with
  | VObj _ (Some r) => r
  | _ => v
  end.

(** The document [generate_docx_report] saves at [docx_file_path]. *)
Definition generate_docx_report (inputs : dict value) : document :=
  let doc : document := [] in
  let doc := add_heading doc (lit "Generated Report") 0 in
  let doc := add_paragraph doc (file_line inputs) in
  let doc := add_heading doc (lit "Code Analysis Output") 1 in
  let code_analysis :=
    dict_get_default inputs (lit "code_analysis_output") (VStr NO_OUTPUT) in
  let code_analysis := take_result code_analysis in
  let doc := add_paragraph doc (clean_text code_analysis) in
  let doc := add_heading doc (lit "Security Analysis Output") 1 in
  let doc := add_paragraph doc (clean_text
    (dict_get_default inputs (lit "security_analysis_output") (VStr NO_OUTPUT))) in
  let doc := add_heading doc (lit "Performance Analysis Output") 1 in
  let doc := add_paragraph doc (clean_text
    (dict_get_default inputs (lit "performance_analysis_output") (VStr NO_OUTPUT))) in
  let doc := add_heading doc (lit "Architecture Analysis Output") 1 in
  let doc := add_paragraph doc (clean_text
    (dict_get_default inputs (lit "code_test_output") (VStr NO_OUTPUT))) in
  let doc := add_heading doc (lit "Best Practices Output") 1 in
  let doc := add_paragraph doc (clean_text
    (dict_get_default inputs (lit "best_practices_output") (VStr NO_OUTPUT))) in
  doc.

(** ** pathlib: [Path(p).stem] on a POSIX path

    The final component is the last part of [p] between slashes that is
    neither empty nor a single dot; the stem cuts it at its last dot unless
    that dot is its first or last character. *)

Definition path_parts (p : str) : list str :=
  filter (fun x => negb (is_nil x) && negb (str_eqb x [DOT]))
         (split_go [SLASH] None 0 p).

Definition path_name (p : str) : str := last (path_parts p) [].

(** [s.rfind(c)], counting from [i]; [None] stands for [-1]. *)
Fixpoint rfind_from (c : char) (i : nat) (s : str) : option nat :=
  match s with
  | [] => None
  | x :: t =>
      match rfind_from c (S i) t with
      | Some j => Some j
      | None => if (x =? c)%N then Some i else None
      end
  end.

Definition path_stem (p : str) : str :=
  let name := path_name p in
  match rfind_from DOT 0 name with
  | Some i =>
      if (0 <? i) && (i <? length name - 1) then firstn i name else name
  | None => name
  end.

(** ** crew.py: [Codesystem.save_report] *)

Definition ascii_alnum (c : char) : bool :=
  ((48 <=? c) && (c <=? 57) || (65 <=? c) && (c <=? 90)
   || (97 <=? c) && (c <=? 122))%N.

Section SaveReport.

(** The alphanumeric property of the Unicode database beyond ASCII, which
    [\w] consults on [str] patterns. *)
Variable unicode_alnum : char -> bool.

Definition isalnum (c : char) : bool :=
  if (c <? 128)%N then ascii_alnum c else unicode_alnum c.

(** [\w] *)
Definition is_word (c : char) : bool := isalnum c || (c =? UNDERSCORE)%N.

(** [[^\w\-_]] *)
Definition invalid_char (c : char) : bool :=
  negb (is_word c || (c =? HYPHEN)%N || (c =? UNDERSCORE)%N).

(** The name of the file under [output_dir]; [timestamp] is
    [datetime.now().strftime("%Y%m%d_%H%M%S")]. *)
Definition docx_name (filename_base : str) (file_name : option str)
    (timestamp : str) : str :=
  match file_name with
  | Some ((_ :: _) as file_name) =>
      let base_name := path_stem file_name in
      let base_name := re_sub [One invalid_char] [UNDERSCORE] base_name in
      base_name ++ lit "_analysis_" ++ timestamp ++ lit ".docx"
  | _ => filename_base ++ lit "_" ++ timestamp ++ lit ".docx"
  end.

(** The body of the loop over [sections[1:]]. *)
Definition add_section (doc : document) (section : str) : result document :=
  if is_nil (strip section) then Ok doc
  else
    lines <- str_split [NL] (Some 1) section ;;
    match lines with
    | title :: rest =>
        let doc := add_heading doc title 1 in
        match rest with
        | body :: _ => Ok (add_paragraph doc body)
        | [] => Ok doc
        end
    | [] => Ok doc
    end.

(** Returns the file name and the document saved under it. *)
Definition save_report (content : str) (filename_base : str)
    (file_name : option str) (timestamp : str) : result (str * document) :=
  let docx_path := docx_name filename_base file_name timestamp in
  let doc : document := [] in
  let doc := add_heading doc (lit "Code Analysis Report") 0 in
  sections <- str_split (NL :: lit "# ") None content ;;
  let doc := add_paragraph doc (hd [] sections) in
  doc <- for_each add_section (tl sections) doc ;;
  Ok (docx_path, doc).

(** The end of [kickoff], from the result of [crew.kickoff] on: nothing is
    saved when the result is falsy, and [inputs.get('file_name', '')] is
    the hint. *)
Definition kickoff_save (run_result : value) (inputs : dict str)
    (timestamp : str) : option (result (str * document)) :=
  let file_name := dict_get_default inputs (lit "file_name") [] in
  if truthy run_result then
    Some (save_report (py_str run_result) (lit "code_analysis_report")
            (Some file_name) timestamp)
  else None.

End SaveReport.

(** ** crew.py: [Codesystem.crew] *)

Record AgentConfig := {
  role : str;
  goal : str;
  backstory : str
}.

Record Agent := mkAgent {
  a_role : str;
  a_goal : str;
  a_backstory : str;
  a_verbose : bool
}.

Record TaskConfig := {
  description : str;
  expected_output : option str;   (* [task_config.get('expected_output', None)] *)
  agent : str;
  dependencies : option (list str) (* [None] when the key is absent *)
}.

(** What a [crewai.Task] keeps of its keyword arguments: [description],
    [expected_output] and [agent] are fields of the model; [dependencies]
    and [verbose] are not, and are dropped. *)
Record Task := mkTask {
  t_description : str;
  t_expected_output : str;
  t_agent : Agent
}.

(** The keyword arguments of one call [Task(...)]. *)
Record TaskArgs := {
  ka_description : str;
  ka_expected_output : option str;
  ka_agent : Agent;
  ka_dependencies : list Task;
  ka_verbose : bool
}.

(** [Task] called on these arguments: the pydantic model requires a string
    for [expected_output] and raises a [ValidationError] on [None]. *)
Definition Task_new (kwargs : TaskArgs) : result Task :=
  match ka_expected_output kwargs with
  | Some text => Ok (mkTask (ka_description kwargs) text (ka_agent kwargs))
  | None => Raise (ValidationError (lit "Task"))
  end.

Record Crew := {
  crew_agents : list Agent;
  crew_tasks : list Task;
  crew_verbose : bool
}.

(** [Crew(agents=..., tasks=..., verbose=...)]: the model raises a
    [ValidationError] when it is given neither agents nor tasks. *)
Definition Crew_new (agents : list Agent) (tasks : list Task) (verbose : bool)
  : result Crew :=
  match agents, tasks with
  | [], [] => Raise (ValidationError (lit "Crew"))
  | _, _ => Ok {| crew_agents := agents; crew_tasks := tasks;
                  crew_verbose := verbose |}
  end.

Definition build_agents (agents_config : dict AgentConfig) : dict Agent :=
  fold_left
    (fun agents '(agent_name, agent_config) =>
       dict_set agents agent_name
         (mkAgent (role agent_config) (goal agent_config)
                  (backstory agent_config) true))
    agents_config [].

(** The inner loop: the units already in [task_outputs], in the order of
    [deps]. *)
Fixpoint resolve (task_outputs : dict Task) (deps : list str) : list Task :=
  match deps with
  | [] => []
  | dep :: rest =>
      match dict_get task_outputs dep with
      | Some t => t :: resolve task_outputs rest
      | None => resolve task_outputs rest
      end
  end.

(** The keyword arguments one round of the loop hands to [Task]: the inner
    loop first, then the arguments in their order, of which only
    [agents[...]] can raise. *)
Definition task_kwargs (agents : dict Agent) (task_outputs : dict Task)
    (task_config : TaskConfig) : result TaskArgs :=
  let deps :=
    match dependencies task_config with
    | Some names => resolve task_outputs names
    | None => []
    end in
  worker <- dict_getitem agents (agent task_config) ;;
  Ok {| ka_description := description task_config;
        ka_expected_output := expected_output task_config;
        ka_agent := worker;
        ka_dependencies := deps;
        ka_verbose := true |}.

(** One round of the loop over [tasks_config.items()]. *)
Definition add_task (agents : dict Agent) (st : list Task * dict Task)
    (item : str * TaskConfig) : result (list Task * dict Task) :=
  let '(tasks, task_outputs) := st in
  let '(task_name, task_config) := item in
  kwargs <- task_kwargs agents task_outputs task_config ;;
  task <- Task_new kwargs ;;
  Ok (tasks ++ [task], dict_set task_outputs task_name task).

Definition crew (agents_config : dict AgentConfig)
    (tasks_config : dict TaskConfig) : result (Crew * dict Task) :=
  let agents := build_agents agents_config in
  '(tasks, task_outputs) <- for_each (add_task agents) tasks_config ([], []) ;;
  c <- Crew_new (dict_values agents) tasks true ;;
  Ok (c, task_outputs).

(** ** crew.py: [Codesystem.kickoff]

    The values of [inputs] are strings or [None]. *)

Definition initial_inputs (inputs : dict (option str)) : dict (option str) :=
  [ (lit "code_to_analyze",
      dict_get_default inputs (lit "code_to_analyze") (Some []));
    (lit "file_name", dict_get_default inputs (lit "file_name") (Some []));
    (lit "code_analysis_output", Some []);
    (lit "security_analysis_output", Some []);
    (lit "performance_analysis_output", Some []);
    (lit "code_test_output", Some []);
    (lit "best_practices_output", Some []);
    (lit "final_report_task", Some []) ].

(** [run_crew] is [crew.kickoff] of the framework, which may raise;
    [docx] is the work of python-docx inside [save_report], which puts the
    blocks into the document and saves it under the name, and raises on a
    text the document cannot hold or a name the file system refuses;
    [timestamp] is the time of the save.  No exception is handled.  Returns
    the result of the method and the report saved, if any. *)
Definition kickoff (unicode_alnum : char -> bool)
    (agents_config : dict AgentConfig) (tasks_config : dict TaskConfig)
    (run_crew : Crew -> dict (option str) -> result value)
    (docx : str -> document -> result unit) (timestamp : str)
    (inputs : option (dict (option str)))
  : result (value * option (str * document)) :=
  let inputs := match inputs with Some d => d | None => [] end in
  let initial_inputs := initial_inputs inputs in
  '(c, task_outputs) <- crew agents_config tasks_config ;;
  result <- run_crew c initial_inputs ;;
  let file_name := dict_get_default inputs (lit "file_name") (Some []) in
  if truthy result then
    let result := VStr (py_str result) in
    let filename_base := lit "code_analysis_report" in
    '(docx_path, doc) <- save_report unicode_alnum (py_str result) filename_base
                           file_name timestamp ;;
    _ <- docx docx_path doc ;;
    Ok (result, Some (docx_path, doc))
  else Ok (result, None).

(** ** main.py: [get_code_files]

    A path is kept as a string that names it.  [PurePath.suffix] cuts the
    final component at its last dot unless that dot is its first or last
    character. *)

Definition name_suffix (name : str) : str :=
  match rfind_from DOT 0 name with
  | Some i =>
      if (0 <? i) && (i <? length name - 1) then skipn i name else []
  | None => []
  end.

Definition path_suffix (p : str) : str := name_suffix (path_name p).

(** [Path(root) / file], for a [file] of a directory listing. *)
Definition path_join (root file : str) : str := root ++ SLASH :: file.

Definition code_extensions : list str :=
  [ lit ".py"; lit ".js"; lit ".java"; lit ".cpp"; lit ".c"; lit ".h";
    lit ".hpp"; lit ".cs"; lit ".rb"; lit ".go"; lit ".rs"; lit ".php" ].

(** [walk] is what [os.walk(repo_path)] yields: for each directory its path,
    its subdirectories and its files. *)
Definition get_code_files (walk : list (str * list str * list str)) : list str :=
  fold_left
    (fun code_files '(root, _, files) =>
       fold_left
         (fun code_files file =>
            let file_path := path_join root file in
            if existsb (str_eqb (path_suffix file_path)) code_extensions
            then code_files ++ [file_path]
            else code_files)
         files code_files)
    walk [].

(** ** main.py: [run]

    [str(path)] is the normal form of the string: the root, one slash or
    exactly two, and the parts joined by single slashes; the dot when there
    is neither. *)

Definition path_root (p : str) : str :=
  if starts_with [SLASH] p then
    if starts_with [SLASH; SLASH] p && negb (starts_with [SLASH; SLASH; SLASH] p)
    then [SLASH; SLASH]
    else [SLASH]
  else [].

Fixpoint join_parts (parts : list str) : str :=
  match parts with
  | [] => []
  | x :: rest =>
      match rest with
      | [] => x
      | _ :: _ => x ++ SLASH :: join_parts rest
      end
  end.

Definition path_str (p : str) : str :=
  match path_root p ++ join_parts (path_parts p) with
  | [] => [DOT]
  | s => s
  end.

Inductive run_exn :=
| NoInput                (* [ValueError]: neither a URL nor a path *)
| CloneFailed            (* the [Exception] of [clone_github_repo] *)
| UnboundResult          (* [UnboundLocalError]: [result] was never bound *)
| NotAPath               (* [TypeError]: [Path(None)] *)
| FromKickoff (e : exn). (* an exception of [codesystem.kickoff] *)

Inductive outcome :=
| Returned (v : value)
| Raised (e : run_exn).

Definition file_inputs (code_content : option str) (file_path : str)
  : dict (option str) :=
  [ (lit "code_to_analyze", code_content);
    (lit "file_name", Some (path_str file_path)) ].

(** The loop over [code_files], with [result] if it is bound and the inputs
    [kickoff] has been called on so far.  [read] is [read_code_file], which
    gives [None] for a file it cannot read, and [kick] is
    [codesystem.kickoff]. *)
Fixpoint process_files (read : str -> option str)
    (kick : dict (option str) -> result value) (code_files : list str)
    (result : option value) (calls : list (dict (option str)))
  : outcome * list (dict (option str)) :=
  match code_files with
  | [] =>
      (match result with
       | Some r => Returned r
       | None => Raised UnboundResult
       end, calls)
  | file_path :: rest =>
      match read file_path with
      | Some ((_ :: _) as code_content) =>
          let initial_inputs := file_inputs (Some code_content) file_path in
          match kick initial_inputs with
          | Ok r => process_files read kick rest (Some r) (calls ++ [initial_inputs])
          | Raise e => (Raised (FromKickoff e), calls ++ [initial_inputs])
          end
      | _ => process_files read kick rest result calls
      end
  end.

(** [clone] is [clone_github_repo], [None] when the clone fails, and [walk]
    is [os.walk].  Returns what [run] returns or raises, and the inputs
    [kickoff] was called on.  The configuration of [Codesystem()] is taken
    as loaded, and the removal of the clone in the [finally] clause changes
    neither. *)
Definition run (clone : str -> option str)
    (walk : str -> list (str * list str * list str))
    (read : str -> option str) (kick : dict (option str) -> result value)
    (github_url file_path : option str)
  : outcome * list (dict (option str)) :=
  match github_url, file_path with
  | None, None => (Raised NoInput, [])
  | _, _ =>
      match github_url with
      | Some ((_ :: _) as github_url) =>
          match clone github_url with
          | None => (Raised CloneFailed, [])
          | Some repo_path =>
              let code_files := get_code_files (walk repo_path) in
              process_files read kick code_files None []
          end
      | _ =>
          match file_path with
          | None => (Raised NotAPath, [])
          | Some file_path =>
              let code_content := read file_path in
              let initial_inputs := file_inputs code_content file_path in
              (match kick initial_inputs with
               | Ok r => Returned r
               | Raise e => Raised (FromKickoff e)
               end, [initial_inputs])
          end
      end
  end.

(** * Specification-level notions *)

(** ** Reports *)

(** The sections of a written document: every heading below the title opens
    one, and its body is the paragraph that follows it, if any. *)
Fixpoint sections_of (doc : document) : list (str * str) :=
  match doc with
  | [] => []
  | Heading title (S _) :: rest =>
      (title, match rest with Paragraph body :: _ => body | _ => [] end)
      :: sections_of rest
  | _ :: rest => sections_of rest
  end.

(** The categories of the structured report: the key read from the inputs
    and the title of its section. *)
Definition categories : list (str * str) :=
  [ (lit "code_analysis_output", lit "Code Analysis Output");
    (lit "security_analysis_output", lit "Security Analysis Output");
    (lit "performance_analysis_output", lit "Performance Analysis Output");
    (lit "code_test_output", lit "Architecture Analysis Output");
    (lit "best_practices_output", lit "Best Practices Output") ].

(** ** Text *)

(** Every occurrence of the two characters [a b], left to right, replaced by
    [repl]. *)
Fixpoint replace2 (a b : char) (repl : str) (s : str) : str :=
  match s with
  | [] => []
  | x :: t =>
      match t with
      | y :: u =>
          if (x =? a)%N && (y =? b)%N then repl ++ replace2 a b repl u
          else x :: replace2 a b repl t
      | [] => [x]
      end
  end.

(** Both escape sequences of the text replaced in one pass: backslash-n by a
    space and backslash-t by four. *)
Fixpoint unescape (s : str) : str :=
  match s with
  | [] => []
  | x :: t =>
      match t with
      | y :: u =>
          if (x =? BSL)%N && (y =? LOW_N)%N then SP :: unescape u
          else if (x =? BSL)%N && (y =? LOW_T)%N
               then SP :: SP :: SP :: SP :: unescape u
               else x :: unescape t
      | [] => [x]
      end
  end.

Definition head_is (c : char) (s : str) : bool :=
  match s with
  | x :: _ => (x =? c)%N
  | [] => false
  end.

(** Every run of [c] reduced to a single [c]. *)
Fixpoint squeeze (c : char) (s : str) : str :=
  match s with
  | [] => []
  | x :: t => if (x =? c)%N && head_is c t then squeeze c t else x :: squeeze c t
  end.

(** Every [c] removed. *)
Definition remove_char (c : char) (s : str) : str :=
  filter (fun x => negb (x =? c)%N) s.

(** [a] immediately followed by [b] somewhere in [s]. *)
Fixpoint has_pair (a b : char) (s : str) : bool :=
  match s with
  | [] => false
  | x :: t => (x =? a)%N && head_is b t || has_pair a b t
  end.

Definition has_char (c : char) (s : str) : bool := existsb (N.eqb c) s.

Definition last_is_space (s : str) : bool :=
  match rev s with
  | x :: _ => isspace x
  | [] => false
  end.

Definition first_is_space (s : str) : bool :=
  match s with
  | x :: _ => isspace x
  | [] => false
  end.

(** The length of the run of [c] at the start of [s]. *)
Fixpoint run_length (c : char) (s : str) : nat :=
  match s with
  | x :: t => if (c =? x)%N then S (run_length c t) else 0
  | [] => 0
  end.

(** A replacement text that cannot take part in an occurrence of [a b]. *)
Definition avoids (a b : char) (repl : str) : bool :=
  negb (is_nil repl) && forallb (fun c => negb (c =? a)%N && negb (c =? b)%N) repl.

(** ** Chunks of a free text *)

(** [sep.join(chunks)] *)
Fixpoint join (sep : str) (chunks : list str) : str :=
  match chunks with
  | [] => []
  | c :: rest =>
      match rest with
      | [] => c
      | _ :: _ => c ++ sep ++ join sep rest
      end
  end.

(** The text before the first line break, and the text after it if there is
    one. *)
Fixpoint first_line (s : str) : str :=
  match s with
  | [] => []
  | c :: t => if (c =? NL)%N then [] else c :: first_line t
  end.

Fixpoint after_first_line (s : str) : option str :=
  match s with
  | [] => None
  | c :: t => if (c =? NL)%N then Some t else after_first_line t
  end.

(** What a chunk after the first contributes to the document: nothing when
    it is blank, else its first line as a heading and the rest, when there
    is a line break, as one paragraph. *)
Definition section_blocks (section : str) : list block :=
  if is_nil (strip section) then []
  else
    Heading (first_line section) 1 ::
    match after_first_line section with
    | Some body => [Paragraph body]
    | None => []
    end.

(** ** File names *)

(** The characters a base name keeps. *)
Definition allowed (unicode_alnum : char -> bool) (c : char) : bool :=
  isalnum unicode_alnum c || (c =? UNDERSCORE)%N || (c =? HYPHEN)%N.

Definition sanitize (unicode_alnum : char -> bool) (s : str) : str :=
  map (fun c => if allowed unicode_alnum c then c else UNDERSCORE) s.

(** ** The task graph *)





(** The unit built from a task definition. *)
Definition unit_of (agents : dict Agent) (task_config : TaskConfig) (u : Task) : Prop :=
  t_description u = description task_config
  /\ expected_output task_config = Some (t_expected_output u)
  /\ dict_get agents (agent task_config) = Some (t_agent u).


(** Every task definition has an [expected_output]. *)
Definition all_expected (tasks_config : dict TaskConfig) : bool :=
  forallb (fun item => match expected_output (snd item) with
                       | Some _ => true
                       | None => false
                       end) tasks_config.

(** The loop state when the round of the [i]-th task definition begins. *)
Definition state_before (agents : dict Agent) (tasks_config : dict TaskConfig)
    (i : nat) : result (list Task * dict Task) :=
  for_each (add_task agents) (firstn i tasks_config) ([], []).

(** The agent built from an agent definition. *)
Definition agent_of (agent_config : AgentConfig) : Agent :=
  mkAgent (role agent_config) (goal agent_config) (backstory agent_config) true.

(** Whether an agent name is a key of the agent definitions, and whether
    the agent name of every task definition is. *)
Definition resolves (agents_config : dict AgentConfig) (a : str) : bool :=
  existsb (str_eqb a) (dict_keys agents_config).

Definition all_resolve (agents_config : dict AgentConfig)
    (tasks_config : dict TaskConfig) : bool :=
  forallb (fun item => resolves agents_config (agent (snd item))) tasks_config.

(** The keys of a mapping are pairwise distinct. *)
Fixpoint distinct (names : list str) : bool :=
  match names with
  | [] => true
  | x :: t => negb (existsb (str_eqb x) t) && distinct t
  end.

(** ** Example configurations *)

Definition demo_agents : dict AgentConfig :=
  [ (lit "analyst",
     {| role := lit "Code Analyst"; goal := lit "Review the code";
        backstory := lit "A senior engineer" |}) ].

Definition demo_task (text : string) (worker : string)
    (deps : option (list str)) : TaskConfig :=
  {| description := lit text; expected_output := Some (lit "A short report");
     agent := lit worker; dependencies := deps |}.

(** A task definition without [expected_output]. *)
Definition bare_task (text : string) (worker : string) : TaskConfig :=
  {| description := lit text; expected_output := None;
     agent := lit worker; dependencies := None |}.

(** [B] names [C], which is declared after it. *)
Definition demo_tasks : dict TaskConfig :=
  [ (lit "A", demo_task "analyse" "analyst" None);
    (lit "B", demo_task "secure" "analyst" (Some [lit "A"; lit "C"]));
    (lit "C", demo_task "report" "analyst" (Some [lit "A"; lit "B"])) ].

(** [B] is given to an agent that does not exist. *)
Definition ghost_tasks : dict TaskConfig :=
  [ (lit "A", demo_task "analyse" "analyst" None);
    (lit "B", demo_task "secure" "ghost" (Some [lit "A"])) ].

(** ** Further notions *)

(** [sep] occurs somewhere in [s]. *)
Fixpoint occurs (sep s : str) : bool :=
  match s with
  | [] => false
  | _ :: t => starts_with sep s || occurs sep t
  end.

(** [t] is a contiguous part of [s]. *)
Definition infix_of (t s : str) : Prop := exists l r, s = l ++ t ++ r.

Definition block_text (b : block) : str :=
  match b with
  | Heading text _ => text
  | Paragraph text => text
  end.

(** A section heading: of level one and on a single line. *)
Definition heading_ok (b : block) : Prop :=
  match b with
  | Heading text level => level = 1 /\ has_char NL text = false
  | Paragraph _ => True
  end.

(** A name of a directory listing: not empty, without slash, not the single
    dot. *)
Definition plain_name (file : str) : bool :=
  negb (is_nil file) && negb (has_char SLASH file) && negb (str_eqb file [DOT]).

Definition has_code_extension (name : str) : bool :=
  existsb (str_eqb (name_suffix name)) code_extensions.

(** A file whose content was read and is not empty. *)
Definition readable (read : str -> option str) (file_path : str) : bool :=
  match read file_path with
  | Some (_ :: _) => true
  | _ => false
  end.

(** The inputs [kickoff] is given for a file. *)
Definition inputs_of (read : str -> option str) (file_path : str)
  : dict (option str) :=
  file_inputs (read file_path) file_path.

(** [result] after the files [code_files], when no call raises. *)
Definition result_after (read : str -> option str)
    (kick : dict (option str) -> result value) (code_files : list str)
    (result : option value) : option value :=
  fold_left
    (fun result f =>
       match kick (inputs_of read f) with
       | Ok r => Some r
       | Raise _ => result
       end)
    (filter (readable read) code_files) result.

(** A lead text followed by sections, each introduced by newline-hash-space
    and made of a title line and a body. *)
Definition render (lead : str) (sections : list (str * str)) : str :=
  lead ++ flat_map (fun sec => (NL :: lit "# ") ++ fst sec ++ NL :: snd sec) sections.

(** A section that [save_report] can read back: a title of one line, no
    newline-hash-space inside, and not blank as a whole. *)
Definition well_formed_section (sec : str * str) : bool :=
  negb (has_char NL (fst sec))
  && negb (occurs (NL :: lit "# ") (fst sec ++ NL :: snd sec))
  && negb (is_nil (strip (fst sec ++ NL :: snd sec))).

(** * Text normalization *)

Lemma list_ind2 (A : Type) (P : list A -> Prop) :
  P [] -> (forall x, P [x]) ->
  (forall x y u, P u -> P (y :: u) -> P (x :: y :: u)) ->
  forall s, P s.
Proof.
  intros H0 H1 H2 s.
  assert (H : P s /\ forall x, P (x :: s)).
  { induction s as [|y u [IHa IHb]]; split; auto. }
  apply H.
Qed.

Lemma sub_from_skip r repl k s :
  sub_from r repl k s = sub_from r repl 0 (skipn k s).
Proof.
  revert k; induction s as [|c t IH]; intros [|k]; simpl; auto.
Qed.

Lemma re_sub_pair a b repl s :
  re_sub [One (N.eqb a); One (N.eqb b)] repl s = replace2 a b repl s.
Proof.
  unfold re_sub.
  induction s as [| x | x y u IHu IHt] using list_ind2.
  - reflexivity.
  - simpl. destruct (a =? x)%N; reflexivity.
  - change (sub_from ?r ?p 0 (x :: ?t))
      with (match re_match r (x :: t) with
            | Some O => p ++ x :: sub_from r p 0 t
            | Some (S k) => p ++ sub_from r p k t
            | None => x :: sub_from r p 0 t
            end).
    change (replace2 a b repl (x :: y :: u))
      with (if (x =? a)%N && (y =? b)%N then repl ++ replace2 a b repl u
            else x :: replace2 a b repl (y :: u)).
    rewrite IHt. simpl re_match.
    rewrite (N.eqb_sym a x), (N.eqb_sym b y).
    destruct (x =? a)%N; simpl; [| reflexivity].
    destruct (y =? b)%N; simpl; [| reflexivity].
    rewrite IHu. reflexivity.
Qed.

Lemma re_match_many c s :
  re_match [Many (N.eqb c)] s =
  match run_length c s with
  | O => None
  | S k => Some (S k)
  end.
Proof.
  induction s as [|x t IH]; [reflexivity|].
  simpl in *. destruct (c =? x)%N; [| reflexivity].
  rewrite IH. destruct (run_length c t); reflexivity.
Qed.

Lemma squeeze_run c t :
  squeeze c (c :: t) = c :: squeeze c (skipn (run_length c t) t).
Proof.
  induction t as [|x t IH].
  - simpl. rewrite N.eqb_refl. reflexivity.
  - change (squeeze c (c :: x :: t))
      with (if (c =? c)%N && (x =? c)%N then squeeze c (x :: t)
            else c :: squeeze c (x :: t)).
    rewrite N.eqb_refl. simpl andb. simpl run_length.
    rewrite (N.eqb_sym c x).
    destruct (x =? c)%N eqn:E; [| reflexivity].
    apply N.eqb_eq in E; subst x. exact IH.
Qed.

Lemma re_sub_many c s :
  re_sub [Many (N.eqb c)] [c] s = squeeze c s.
Proof.
  unfold re_sub.
  remember (length s) as n eqn:Hn.
  revert s Hn.
  induction n as [n IH] using lt_wf_ind; intros s Hn.
  destruct s as [|x t]; [reflexivity|].
  change (sub_from ?r ?p 0 (x :: t))
    with (match re_match r (x :: t) with
          | Some O => p ++ x :: sub_from r p 0 t
          | Some (S k) => p ++ sub_from r p k t
          | None => x :: sub_from r p 0 t
          end).
  rewrite re_match_many. simpl run_length.
  destruct (c =? x)%N eqn:E.
  - apply N.eqb_eq in E; subst x.
    rewrite sub_from_skip, squeeze_run. simpl app. f_equal.
    apply (IH (length (skipn (run_length c t) t))); [| reflexivity].
    subst n. simpl. rewrite length_skipn. lia.
  - simpl squeeze. rewrite N.eqb_sym, E. simpl. f_equal.
    apply (IH (length t)); [subst n; simpl; lia | reflexivity].
Qed.

Lemma str_replace_char c s : str_replace [c] [] s = remove_char c s.
Proof.
  unfold str_replace, re_sub, literal, remove_char. simpl map.
  induction s as [|x t IH]; [reflexivity|].
  simpl. rewrite (N.eqb_sym c x). destruct (x =? c)%N; simpl.
  - exact IH.
  - f_equal. exact IH.
Qed.

Lemma re_sub_class p r s :
  re_sub [One p] [r] s = map (fun c => if p c then r else c) s.
Proof.
  unfold re_sub.
  induction s as [|x t IH]; [reflexivity|].
  simpl. destruct (p x); simpl; f_equal; exact IH.
Qed.

(** [clean_text] as the composition of the five steps. *)
Lemma clean_text_steps v :
  clean_text v =
  strip (remove_char CR (squeeze NL
    (replace2 BSL LOW_T [SP; SP; SP; SP] (replace2 BSL LOW_N [SP] (py_str v))))).
Proof.
  unfold clean_text.
  rewrite str_replace_char, re_sub_many, !re_sub_pair. reflexivity.
Qed.

(** ** [strip] *)

Lemma lstrip_split s :
  exists l, s = l ++ lstrip s /\ forallb isspace l = true.
Proof.
  induction s as [|c t [l [E F]]].
  - exists []. split; reflexivity.
  - simpl. destruct (isspace c) eqn:Hc.
    + exists (c :: l). simpl. rewrite Hc, F. split; [f_equal; exact E | reflexivity].
    + exists []. split; reflexivity.
Qed.

Lemma lstrip_first s : first_is_space (lstrip s) = false.
Proof.
  induction s as [|c t IH]; [reflexivity|].
  simpl. destruct (isspace c) eqn:Hc; [exact IH | simpl; exact Hc].
Qed.

Lemma lstrip_id s : first_is_space s = false -> lstrip s = s.
Proof.
  destruct s as [|c t]; simpl; [reflexivity|].
  intros ->. reflexivity.
Qed.

Lemma forallb_rev (A : Type) (f : A -> bool) l :
  forallb f (rev l) = forallb f l.
Proof.
  induction l as [|a l IH]; [reflexivity|].
  simpl. rewrite forallb_app, IH. simpl. rewrite andb_true_r. apply andb_comm.
Qed.

Lemma rstrip_split s :
  exists r, s = rstrip s ++ r /\ forallb isspace r = true.
Proof.
  unfold rstrip.
  destruct (lstrip_split (rev s)) as [l [E F]].
  exists (rev l). split.
  - rewrite <- rev_app_distr, <- E, rev_involutive. reflexivity.
  - rewrite forallb_rev. exact F.
Qed.

Lemma rstrip_last s : last_is_space (rstrip s) = false.
Proof.
  unfold last_is_space, rstrip. rewrite rev_involutive.
  apply (lstrip_first (rev s)).
Qed.

Lemma rstrip_id s : last_is_space s = false -> rstrip s = s.
Proof.
  unfold last_is_space, rstrip. intros H.
  rewrite lstrip_id; [apply rev_involutive|].
  exact H.
Qed.

Lemma rstrip_first s : first_is_space s = false -> first_is_space (rstrip s) = false.
Proof.
  intros H. destruct (rstrip_split s) as [r [E _]].
  destruct (rstrip s) as [|c t]; [reflexivity|].
  rewrite E in H. exact H.
Qed.

Lemma strip_split s :
  exists l r, s = l ++ strip s ++ r /\
              forallb isspace l = true /\ forallb isspace r = true.
Proof.
  destruct (lstrip_split s) as [l [El Fl]].
  destruct (rstrip_split (lstrip s)) as [r [Er Fr]].
  exists l, r. unfold strip. rewrite <- Er. auto.
Qed.

Lemma strip_first s : first_is_space (strip s) = false.
Proof. apply rstrip_first, lstrip_first. Qed.

Lemma strip_last s : last_is_space (strip s) = false.
Proof. apply rstrip_last. Qed.

Lemma strip_id s :
  first_is_space s = false -> last_is_space s = false -> strip s = s.
Proof.
  intros Hf Hl. unfold strip. rewrite (lstrip_id _ Hf). apply rstrip_id, Hl.
Qed.

Lemma strip_idempotent s : strip (strip s) = strip s.
Proof. apply strip_id; [apply strip_first | apply strip_last]. Qed.

(** ** Adjacent pairs and single characters *)

Lemma has_pair_app a b l m :
  has_pair a b (l ++ m) = false ->
  has_pair a b l = false /\ has_pair a b m = false.
Proof.
  induction l as [|x l IH]; simpl; [auto|].
  intros H. apply orb_false_iff in H. destruct H as [H1 H2].
  destruct (IH H2) as [Hl Hm]. rewrite Hl, orb_false_r. split; [| exact Hm].
  destruct l as [|y l]; [apply andb_false_r | exact H1].
Qed.

Lemma has_char_app c l m :
  has_char c (l ++ m) = has_char c l || has_char c m.
Proof. apply existsb_app. Qed.

Lemma has_pair_strip a b s :
  has_pair a b s = false -> has_pair a b (strip s) = false.
Proof.
  intros H. destruct (strip_split s) as [l [r [E _]]].
  rewrite E in H. apply has_pair_app in H. destruct H as [_ H].
  apply has_pair_app in H. apply H.
Qed.

Lemma has_char_strip c s :
  has_char c s = false -> has_char c (strip s) = false.
Proof.
  intros H. destruct (strip_split s) as [l [r [E _]]].
  rewrite E, !has_char_app in H.
  apply orb_false_iff in H. destruct H as [_ H].
  apply orb_false_iff in H. apply H.
Qed.

Lemma head_is_squeeze b c s : head_is b (squeeze c s) = head_is b s.
Proof.
  induction s as [|x t IH]; [reflexivity|].
  simpl. destruct (x =? c)%N eqn:E; simpl; [| reflexivity].
  destruct t as [|y t]; [reflexivity|].
  simpl in *. destruct (y =? c)%N eqn:E'; [| reflexivity].
  rewrite IH. apply N.eqb_eq in E, E'. subst. reflexivity.
Qed.

Lemma has_pair_squeeze a b c s :
  has_pair a b s = false -> has_pair a b (squeeze c s) = false.
Proof.
  induction s as [|x t IH]; [reflexivity|].
  simpl. intros H. apply orb_false_iff in H. destruct H as [H1 H2].
  destruct ((x =? c)%N && head_is c t); [exact (IH H2)|].
  simpl. rewrite head_is_squeeze, H1. exact (IH H2).
Qed.

Lemma squeeze_no_run c s : has_pair c c (squeeze c s) = false.
Proof.
  induction s as [|x t IH]; [reflexivity|].
  simpl. destruct ((x =? c)%N && head_is c t) eqn:E; [exact IH|].
  simpl. rewrite head_is_squeeze, E. exact IH.
Qed.

Lemma squeeze_id c s : has_pair c c s = false -> squeeze c s = s.
Proof.
  induction s as [|x t IH]; [reflexivity|].
  simpl. intros H. apply orb_false_iff in H. destruct H as [H1 H2].
  rewrite H1, (IH H2). reflexivity.
Qed.

Lemma has_char_squeeze d c s :
  has_char d s = false -> has_char d (squeeze c s) = false.
Proof.
  induction s as [|x t IH]; [reflexivity|].
  simpl. intros H. apply orb_false_iff in H. destruct H as [H1 H2].
  destruct ((x =? c)%N && head_is c t); [exact (IH H2)|].
  simpl. rewrite H1. exact (IH H2).
Qed.

Lemma remove_char_gone c s : has_char c (remove_char c s) = false.
Proof.
  induction s as [|x t IH]; [reflexivity|].
  simpl. destruct (x =? c)%N eqn:E; simpl; [exact IH|].
  rewrite N.eqb_sym, E. exact IH.
Qed.

Lemma remove_char_id c s : has_char c s = false -> remove_char c s = s.
Proof.
  induction s as [|x t IH]; [reflexivity|].
  simpl. intros H. apply orb_false_iff in H. destruct H as [H1 H2].
  rewrite N.eqb_sym, H1. simpl. f_equal. exact (IH H2).
Qed.

(** ** Replacing a two-character sequence *)

Lemma replace2_id a b repl s :
  has_pair a b s = false -> replace2 a b repl s = s.
Proof.
  induction s as [| x | x y u IHu IHt] using list_ind2; try reflexivity.
  intros H.
  change (has_pair a b (x :: y :: u))
    with ((x =? a)%N && (y =? b)%N || has_pair a b (y :: u)) in H.
  apply orb_false_iff in H. destruct H as [H1 H2].
  change (replace2 a b repl (x :: y :: u))
    with (if (x =? a)%N && (y =? b)%N then repl ++ replace2 a b repl u
          else x :: replace2 a b repl (y :: u)).
  rewrite H1, (IHt H2). reflexivity.
Qed.

Lemma head_is_replace2 a b b' repl s :
  avoids a b' repl = true ->
  head_is b' (replace2 a b repl s) = true -> head_is b' s = true.
Proof.
  intros Hr. destruct s as [|x [|y u]]; simpl; auto.
  destruct ((x =? a)%N && (y =? b)%N); simpl; auto.
  unfold avoids in Hr. destruct repl as [|r0 rs]; [discriminate|].
  simpl in *. intros E. rewrite E in Hr.
  rewrite andb_false_r in Hr. discriminate.
Qed.

Lemma has_pair_avoids a b repl rest :
  avoids a b repl = true -> has_pair a b (repl ++ rest) = has_pair a b rest.
Proof.
  unfold avoids. destruct repl as [|r0 rs]; [discriminate|].
  simpl negb. rewrite andb_true_l.
  revert r0. induction rs as [|r1 rs IH]; intros r0 H; simpl in H.
  - simpl. destruct (r0 =? a)%N; [discriminate | reflexivity].
  - apply andb_true_iff in H. destruct H as [H0 H].
    change (has_pair a b ((r0 :: r1 :: rs) ++ rest))
      with ((r0 =? a)%N && (r1 =? b)%N || has_pair a b ((r1 :: rs) ++ rest)).
    rewrite (IH r1 H).
    destruct (r0 =? a)%N; [discriminate | reflexivity].
Qed.

Lemma replace2_no_pair a b repl s :
  avoids a b repl = true -> has_pair a b (replace2 a b repl s) = false.
Proof.
  intros Hr.
  induction s as [| x | x y u IHu IHt] using list_ind2.
  - reflexivity.
  - simpl. rewrite andb_false_r. reflexivity.
  - change (replace2 a b repl (x :: y :: u))
      with (if (x =? a)%N && (y =? b)%N then repl ++ replace2 a b repl u
            else x :: replace2 a b repl (y :: u)).
    destruct ((x =? a)%N && (y =? b)%N) eqn:E.
    + rewrite has_pair_avoids; assumption.
    + change (has_pair a b (x :: ?t))
        with ((x =? a)%N && head_is b t || has_pair a b t).
      rewrite IHt, orb_false_r.
      destruct (x =? a)%N; [| reflexivity].
      rewrite andb_true_l in E |- *.
      destruct (head_is b (replace2 a b repl (y :: u))) eqn:Hh; [| reflexivity].
      apply head_is_replace2 in Hh; [| exact Hr].
      simpl in Hh. congruence.
Qed.

Lemma replace2_keeps_no_pair a b a' b' repl s :
  avoids a' b' repl = true -> avoids a b' repl = true ->
  has_pair a' b' s = false ->
  has_pair a' b' (replace2 a b repl s) = false.
Proof.
  intros Hr Hr'.
  induction s as [| x | x y u IHu IHt] using list_ind2; auto.
  intros H.
  change (has_pair a' b' (x :: y :: u))
    with ((x =? a')%N && (y =? b')%N || has_pair a' b' (y :: u)) in H.
  apply orb_false_iff in H. destruct H as [H1 H2].
  change (replace2 a b repl (x :: y :: u))
    with (if (x =? a)%N && (y =? b)%N then repl ++ replace2 a b repl u
          else x :: replace2 a b repl (y :: u)).
  destruct ((x =? a)%N && (y =? b)%N) eqn:E.
  - rewrite has_pair_avoids; [| exact Hr].
    apply IHu. simpl in H2. apply orb_false_iff in H2. apply H2.
  - change (has_pair a' b' (x :: ?t))
      with ((x =? a')%N && head_is b' t || has_pair a' b' t).
    rewrite (IHt H2), orb_false_r.
    destruct (x =? a')%N; [| reflexivity].
    rewrite andb_true_l in H1 |- *.
    destruct (head_is b' (replace2 a b repl (y :: u))) eqn:Hh; [| reflexivity].
    apply head_is_replace2 in Hh; [| exact Hr'].
    simpl in Hh. congruence.
Qed.

Lemma has_char_replace2 d a b repl s :
  has_char d repl = false -> has_char d s = false ->
  has_char d (replace2 a b repl s) = false.
Proof.
  intros Hr.
  induction s as [| x | x y u IHu IHt] using list_ind2; auto.
  intros H.
  change (replace2 a b repl (x :: y :: u))
    with (if (x =? a)%N && (y =? b)%N then repl ++ replace2 a b repl u
          else x :: replace2 a b repl (y :: u)).
  simpl in H. apply orb_false_iff in H. destruct H as [H1 H2].
  destruct ((x =? a)%N && (y =? b)%N).
  - rewrite has_char_app, Hr. apply IHu.
    apply orb_false_iff in H2. apply H2.
  - change (has_char d (x :: ?t)) with ((d =? x)%N || has_char d t).
    rewrite H1. apply IHt. exact H2.
Qed.

Lemma replace2_skip a b repl x w :
  (x =? a)%N && head_is b w = false ->
  replace2 a b repl (x :: w) = x :: replace2 a b repl w.
Proof.
  destruct w as [|y u]; [reflexivity|].
  cbn [head_is replace2]. intros ->. reflexivity.
Qed.

(** The two replacements of escape sequences do not interfere: one after
    the other, they replace the occurrences of the text itself. *)
Lemma replace2_unescape s :
  replace2 BSL LOW_T [SP; SP; SP; SP] (replace2 BSL LOW_N [SP] s) = unescape s.
Proof.
  induction s as [| x | x y u IHu IHt] using list_ind2; try reflexivity.
  change (replace2 BSL LOW_N [SP] (x :: y :: u))
    with (if (x =? BSL)%N && (y =? LOW_N)%N then [SP] ++ replace2 BSL LOW_N [SP] u
          else x :: replace2 BSL LOW_N [SP] (y :: u)).
  change (unescape (x :: y :: u))
    with (if (x =? BSL)%N && (y =? LOW_N)%N then SP :: unescape u
          else if (x =? BSL)%N && (y =? LOW_T)%N
               then SP :: SP :: SP :: SP :: unescape u
               else x :: unescape (y :: u)).
  destruct ((x =? BSL)%N && (y =? LOW_N)%N) eqn:En.
  - cbn [app]. rewrite replace2_skip by reflexivity. rewrite IHu. reflexivity.
  - destruct ((x =? BSL)%N && (y =? LOW_T)%N) eqn:Et.
    + apply andb_true_iff in Et. destruct Et as [Ex Ey].
      apply N.eqb_eq in Ex, Ey. subst x y.
      rewrite (replace2_skip _ _ _ LOW_T) by reflexivity.
      change (replace2 BSL LOW_T [SP; SP; SP; SP]
                (BSL :: LOW_T :: replace2 BSL LOW_N [SP] u))
        with ([SP; SP; SP; SP]
              ++ replace2 BSL LOW_T [SP; SP; SP; SP] (replace2 BSL LOW_N [SP] u)).
      rewrite IHu. reflexivity.
    + rewrite replace2_skip; [rewrite IHt; reflexivity|].
      destruct (x =? BSL)%N; [| reflexivity].
      rewrite andb_true_l in Et |- *.
      destruct (head_is LOW_T (replace2 BSL LOW_N [SP] (y :: u))) eqn:Hh;
        [| reflexivity].
      apply head_is_replace2 in Hh; [| reflexivity].
      cbn [head_is] in Hh. congruence.
Qed.

(** ** [strip] and [squeeze] commute *)

Lemma lstrip_spaces l s : forallb isspace l = true -> lstrip (l ++ s) = lstrip s.
Proof.
  induction l as [|c l IH]; simpl; [reflexivity|].
  intros H. apply andb_true_iff in H. destruct H as [-> H]. exact (IH H).
Qed.

Lemma strip_unique l m r :
  forallb isspace l = true -> forallb isspace r = true ->
  first_is_space m = false -> last_is_space m = false ->
  strip (l ++ m ++ r) = m.
Proof.
  intros Hl Hr Hf Hla. unfold strip. rewrite (lstrip_spaces _ _ Hl).
  destruct m as [|c m'].
  - simpl. replace (lstrip r) with (@nil char); [reflexivity|].
    rewrite <- (app_nil_r r), lstrip_spaces; auto.
  - rewrite lstrip_id; [| exact Hf].
    unfold rstrip. rewrite rev_app_distr, lstrip_spaces.
    + rewrite lstrip_id; [apply rev_involutive | exact Hla].
    + rewrite forallb_rev. exact Hr.
Qed.

Lemma squeeze_spaces c l : forallb isspace l = true -> forallb isspace (squeeze c l) = true.
Proof.
  induction l as [|x l IH]; simpl; [reflexivity|].
  intros H. apply andb_true_iff in H. destruct H as [Hx H].
  destruct ((x =? c)%N && head_is c l); simpl; [| rewrite Hx]; exact (IH H).
Qed.

Lemma first_is_space_squeeze c s : first_is_space (squeeze c s) = first_is_space s.
Proof.
  induction s as [|x t IH]; [reflexivity|].
  simpl. destruct (x =? c)%N eqn:E; simpl; [| reflexivity].
  destruct t as [|y t]; [reflexivity|].
  simpl in *. destruct (y =? c)%N eqn:E'; [| reflexivity].
  rewrite IH. apply N.eqb_eq in E, E'. subst. reflexivity.
Qed.

Lemma last_is_space_cons x y t : last_is_space (x :: y :: t) = last_is_space (y :: t).
Proof.
  unfold last_is_space. simpl rev.
  destruct (rev t ++ [y]) eqn:E; [| reflexivity].
  destruct (rev t); discriminate.
Qed.

Lemma squeeze_cons_nonnil c x t : squeeze c (x :: t) <> [].
Proof.
  revert x. induction t as [|y t IH]; intros x; simpl.
  - rewrite andb_false_r. discriminate.
  - destruct ((x =? c)%N && (y =? c)%N); [apply IH | discriminate].
Qed.

Lemma last_is_space_squeeze c s : last_is_space (squeeze c s) = last_is_space s.
Proof.
  induction s as [| x | x y u _ IHt] using list_ind2.
  - reflexivity.
  - simpl. rewrite andb_false_r. reflexivity.
  - rewrite last_is_space_cons, <- IHt.
    change (squeeze c (x :: y :: u))
      with (if (x =? c)%N && (y =? c)%N then squeeze c (y :: u)
            else x :: squeeze c (y :: u)).
    destruct ((x =? c)%N && (y =? c)%N); [reflexivity|].
    destruct (squeeze c (y :: u)) as [|z w] eqn:E.
    + exfalso. exact (squeeze_cons_nonnil _ _ _ E).
    + apply last_is_space_cons.
Qed.

Lemma head_is_app c l m : l <> [] -> head_is c (l ++ m) = head_is c l.
Proof. destruct l; [congruence | reflexivity]. Qed.

Lemma squeeze_app_l c l m :
  head_is c m = false -> squeeze c (l ++ m) = squeeze c l ++ squeeze c m.
Proof.
  intros Hm. induction l as [|x l IH]; [reflexivity|].
  simpl. rewrite IH.
  destruct l as [|y l].
  - simpl. rewrite Hm, andb_false_r. reflexivity.
  - simpl head_is. destruct ((x =? c)%N && (y =? c)%N); reflexivity.
Qed.

Lemma last_default (m : str) (y d d' : char) : last (y :: m) d = last (y :: m) d'.
Proof.
  revert y. induction m as [|z m IH]; intros y; [reflexivity|].
  change (last (z :: m) d = last (z :: m) d'). apply IH.
Qed.

Lemma squeeze_app_r c x m r :
  last (x :: m) x <> c -> squeeze c ((x :: m) ++ r) = squeeze c (x :: m) ++ squeeze c r.
Proof.
  revert x. induction m as [|y m IH]; intros x Hx.
  - simpl in *. apply N.eqb_neq in Hx. rewrite Hx. reflexivity.
  - change (squeeze c ((x :: y :: m) ++ r))
      with (if (x =? c)%N && (y =? c)%N then squeeze c ((y :: m) ++ r)
            else x :: squeeze c ((y :: m) ++ r)).
    change (squeeze c (x :: y :: m))
      with (if (x =? c)%N && (y =? c)%N then squeeze c (y :: m)
            else x :: squeeze c (y :: m)).
    rewrite IH.
    + destruct ((x =? c)%N && (y =? c)%N); reflexivity.
    + intros E. apply Hx. rewrite <- E.
      apply (last_default m y x y).
Qed.

Lemma last_is_space_last x m : last_is_space (x :: m) = isspace (last (x :: m) x).
Proof.
  revert x. induction m as [|y m IH]; intros x; [reflexivity|].
  rewrite last_is_space_cons, IH.
  change (last (x :: y :: m) x) with (last (y :: m) x).
  f_equal. apply last_default.
Qed.

Lemma isspace_NL : isspace NL = true.
Proof. reflexivity. Qed.

Lemma strip_squeeze s : strip (squeeze NL s) = squeeze NL (strip s).
Proof.
  destruct (strip_split s) as [l [r [E [Hl Hr]]]].
  pose proof (strip_first s) as Hf. pose proof (strip_last s) as Hla.
  destruct (strip s) as [|x m] eqn:Es.
  - simpl in E. rewrite E. simpl.
    pose proof (squeeze_spaces NL (l ++ r)) as H.
    rewrite forallb_app, Hl, Hr in H. specialize (H eq_refl).
    replace (squeeze NL (l ++ r)) with (squeeze NL (l ++ r) ++ [] ++ [])
      by apply app_nil_r.
    apply strip_unique; auto.
  - rewrite E at 1.
    assert (Hx : last (x :: m) x <> NL).
    { intros Hc. rewrite last_is_space_last, Hc in Hla. discriminate. }
    assert (Hh : head_is NL ((x :: m) ++ r) = false).
    { simpl. simpl in Hf. apply N.eqb_neq. intros ->. discriminate. }
    rewrite (squeeze_app_l _ _ _ Hh), (squeeze_app_r _ _ _ _ Hx).
    apply strip_unique.
    + apply squeeze_spaces, Hl.
    + apply squeeze_spaces, Hr.
    + rewrite first_is_space_squeeze. exact Hf.
    + rewrite last_is_space_squeeze. exact Hla.
Qed.

(** ** The claims on [clean_text] *)

(** C5.  On every string, [clean_text] is the five steps in the order of the
    source: each literal backslash-n becomes one space (none is left), each
    literal backslash-t becomes four spaces (none is left, and no
    backslash-n comes back; the two together replace the escape sequences
    of the string itself), each run of line breaks becomes one line break
    (no two are adjacent afterwards), every carriage return is removed, and
    the result is that text without its leading and trailing whitespace. *)
Theorem clean_text_normalizes (x : str) :
  let s1 := replace2 BSL LOW_N [SP] x in
  let s2 := replace2 BSL LOW_T [SP; SP; SP; SP] s1 in
  let s3 := squeeze NL s2 in
  let s4 := remove_char CR s3 in
  clean_text (VStr x) = strip s4
  /\ has_pair BSL LOW_N s1 = false
  /\ (has_pair BSL LOW_T s2 = false /\ has_pair BSL LOW_N s2 = false)
  /\ s2 = unescape x
  /\ has_pair NL NL s3 = false
  /\ has_char CR s4 = false
  /\ (exists l r, s4 = l ++ clean_text (VStr x) ++ r
                  /\ forallb isspace l = true /\ forallb isspace r = true)
  /\ first_is_space (clean_text (VStr x)) = false
  /\ last_is_space (clean_text (VStr x)) = false
  /\ has_char CR (clean_text (VStr x)) = false.
Proof.
  intros s1 s2 s3 s4.
  assert (E : clean_text (VStr x) = strip s4) by apply clean_text_steps.
  rewrite E.
  repeat split.
  - apply replace2_no_pair. reflexivity.
  - apply replace2_no_pair. reflexivity.
  - apply replace2_keeps_no_pair; try reflexivity.
    apply replace2_no_pair. reflexivity.
  - apply replace2_unescape.
  - apply squeeze_no_run.
  - apply remove_char_gone.
  - apply strip_split.
  - apply strip_first.
  - apply strip_last.
  - apply has_char_strip, remove_char_gone.
Qed.

(** The text left by [clean_text] on a string without carriage returns has
    no escape sequence, no carriage return and no run of line breaks. *)
Lemma clean_text_clean (x : str) :
  has_char CR x = false ->
  let y := clean_text (VStr x) in
  has_pair BSL LOW_N y = false /\ has_pair BSL LOW_T y = false /\
  has_char CR y = false /\ has_pair NL NL y = false.
Proof.
  intros Hx y. subst y. rewrite clean_text_steps. simpl py_str.
  assert (H3 : has_char CR (squeeze NL (replace2 BSL LOW_T [SP; SP; SP; SP]
                 (replace2 BSL LOW_N [SP] x))) = false).
  { apply has_char_squeeze, has_char_replace2; [reflexivity|].
    apply has_char_replace2; [reflexivity | exact Hx]. }
  rewrite (remove_char_id _ _ H3).
  repeat split.
  - apply has_pair_strip, has_pair_squeeze.
    apply replace2_keeps_no_pair; try reflexivity.
    apply replace2_no_pair. reflexivity.
  - apply has_pair_strip, has_pair_squeeze, replace2_no_pair. reflexivity.
  - apply has_char_strip, H3.
  - apply has_pair_strip, squeeze_no_run.
Qed.

Lemma clean_text_plain (x : str) :
  has_pair BSL LOW_N x = false -> has_pair BSL LOW_T x = false ->
  has_char CR x = false ->
  clean_text (VStr x) = strip (squeeze NL x).
Proof.
  intros Hn Ht Hc. rewrite clean_text_steps. simpl py_str.
  rewrite (replace2_id _ _ _ _ Hn), (replace2_id _ _ _ _ Ht).
  rewrite remove_char_id; [reflexivity|].
  apply has_char_squeeze, Hc.
Qed.

(** C3, as the source has it.  On a string without carriage returns
    [clean_text] is idempotent; and when the string also has no literal
    backslash-n and no literal backslash-t, the result is the string with
    its runs of line breaks reduced to one and its leading and trailing
    whitespace removed, in either order. *)
Theorem clean_text_idempotent (x : str) :
  has_char CR x = false ->
  clean_text (VStr (clean_text (VStr x))) = clean_text (VStr x)
  /\ (has_pair BSL LOW_N x = false -> has_pair BSL LOW_T x = false ->
      clean_text (VStr x) = strip (squeeze NL x)
      /\ clean_text (VStr x) = squeeze NL (strip x)).
Proof.
  intros Hc. split.
  - destruct (clean_text_clean x Hc) as [Hn [Ht [Hr Hnn]]].
    rewrite (clean_text_plain _ Hn Ht Hr), (squeeze_id _ _ Hnn).
    apply strip_id; rewrite clean_text_steps; [apply strip_first | apply strip_last].
  - intros Hn Ht. rewrite (clean_text_plain x Hn Ht Hc). split; [reflexivity|].
    apply strip_squeeze.
Qed.

Lemma clean_text_idempotent_witness :
  let x := lit " a" ++ [NL; NL; NL] ++ lit "b " in
  has_char CR x = false
  /\ clean_text (VStr (clean_text (VStr x))) = clean_text (VStr x)
  /\ clean_text (VStr x) = strip (squeeze NL x)
  /\ clean_text (VStr x) = squeeze NL (strip x).
Proof.
  intros x.
  destruct (clean_text_idempotent x eq_refl) as [H1 H2].
  destruct (H2 eq_refl eq_refl) as [H3 H4].
  split; [reflexivity|]. split; [exact H1|]. split; [exact H3 | exact H4].
Defined.

(** C3, as the claim has it, fails: a blank line of a text with Windows line
    ends keeps its two line breaks through one pass and loses one of them in
    the next. *)
Lemma clean_text_not_idempotent :
  let x := lit "a" ++ [CR; NL; CR; NL] ++ lit "b" in
  clean_text (VStr x) = lit "a" ++ [NL; NL] ++ lit "b"
  /\ clean_text (VStr (clean_text (VStr x))) = lit "a" ++ [NL] ++ lit "b"
  /\ clean_text (VStr (clean_text (VStr x))) <> clean_text (VStr x).
Proof.
  intros x. split; [reflexivity|]. split; [reflexivity|].
  vm_compute. discriminate.
Qed.

(** A carriage return between a backslash and an [n] leaves a literal
    backslash-n in the result, which a second pass turns into nothing. *)
Lemma clean_text_leaves_escape :
  clean_text (VStr [BSL; CR; LOW_N]) = [BSL; LOW_N]
  /\ clean_text (VStr [BSL; LOW_N]) = [].
Proof. split; reflexivity. Qed.

(** * Structured mode: [generate_docx_report] *)

Lemma clean_text_placeholder : clean_text (VStr NO_OUTPUT) = NO_OUTPUT.
Proof. reflexivity. Qed.

Lemma generate_docx_report_sections (inputs : dict value) :
  sections_of (generate_docx_report inputs) =
  [ (lit "Code Analysis Output",
      clean_text (take_result
        (dict_get_default inputs (lit "code_analysis_output") (VStr NO_OUTPUT))));
    (lit "Security Analysis Output",
      clean_text (dict_get_default inputs (lit "security_analysis_output") (VStr NO_OUTPUT)));
    (lit "Performance Analysis Output",
      clean_text (dict_get_default inputs (lit "performance_analysis_output") (VStr NO_OUTPUT)));
    (lit "Architecture Analysis Output",
      clean_text (dict_get_default inputs (lit "code_test_output") (VStr NO_OUTPUT)));
    (lit "Best Practices Output",
      clean_text (dict_get_default inputs (lit "best_practices_output") (VStr NO_OUTPUT))) ].
Proof.
  cbv [generate_docx_report add_heading add_paragraph app sections_of].
  reflexivity.
Qed.

(** C8.  Whatever the outputs mapping, the structured report has exactly one
    section per category, with the fixed titles in the fixed order, and the
    body of a category whose key is absent is the placeholder; the function
    is total, so no error arises. *)
Theorem structured_sections (inputs : dict value) :
  map fst (sections_of (generate_docx_report inputs)) = map snd categories
  /\ forall i key title,
       nth_error categories i = Some (key, title) ->
       dict_get inputs key = None ->
       nth_error (sections_of (generate_docx_report inputs)) i
       = Some (title, NO_OUTPUT).
Proof.
  rewrite generate_docx_report_sections. split; [reflexivity|].
  intros i key title Hi Hk.
  do 5 (destruct i as [|i];
        [ injection Hi as <- <-; simpl nth_error; unfold dict_get_default;
          rewrite Hk; reflexivity |]).
  destruct i; discriminate.
Qed.

Lemma structured_sections_witness :
  let inputs := [(lit "code_analysis_output", VStr (lit "ok"))] in
  dict_get inputs (lit "security_analysis_output") = None
  /\ nth_error (sections_of (generate_docx_report inputs)) 1
     = Some (lit "Security Analysis Output", NO_OUTPUT).
Proof.
  intros inputs. split; [reflexivity|].
  destruct (structured_sections inputs) as [_ H].
  apply (H 1 (lit "security_analysis_output") (lit "Security Analysis Output"));
    reflexivity.
Defined.

(** C9.  From the inputs [prepare_inputs] builds, the report never finds the
    key [code_test_output], which [prepare_inputs] files under
    [code_test_coverage]: the body of the fourth section is the placeholder
    whatever the worker outputs are. *)
Theorem architecture_section_placeholder
    (file_path code_content : value) (agent_outputs : dict value) :
  let inputs := prepare_inputs file_path code_content agent_outputs in
  dict_get inputs (lit "code_test_output") = None
  /\ dict_get inputs (lit "code_test_coverage")
     = Some (dict_get_default agent_outputs (lit "code_test_output") (VStr NO_OUTPUT))
  /\ nth_error (sections_of (generate_docx_report inputs)) 3
     = Some (lit "Architecture Analysis Output", NO_OUTPUT).
Proof.
  intros inputs.
  assert (H : dict_get inputs (lit "code_test_output") = None) by reflexivity.
  split; [exact H|]. split; [reflexivity|].
  rewrite generate_docx_report_sections. simpl nth_error.
  unfold dict_get_default at 1. rewrite H. reflexivity.
Qed.

(** * Free-text split mode: [save_report] *)

Lemma split_go_nonnil sep m k s : split_go sep m k s <> [].
Proof.
  revert m k. induction s as [|c t IH]; intros m k; simpl; [discriminate|].
  destruct k; [| apply IH].
  destruct (may_split m && starts_with sep (c :: t)); [discriminate|].
  specialize (IH m 0). destruct (split_go sep m 0 t); [congruence | discriminate].
Qed.

Lemma starts_with_split p s :
  starts_with p s = true -> s = p ++ skipn (length p) s.
Proof.
  revert s. induction p as [|a p IH]; intros s; simpl; [reflexivity|].
  destruct s as [|b s]; [discriminate|].
  intros H. apply andb_true_iff in H. destruct H as [E H].
  apply N.eqb_eq in E. subst b. f_equal. exact (IH s H).
Qed.

Lemma join_push sep c chunks :
  chunks <> [] -> join sep (push c chunks) = c :: join sep chunks.
Proof.
  destruct chunks as [|x rest]; [congruence|]. intros _.
  simpl. destruct rest; reflexivity.
Qed.

(** Joining the chunks with the separator gives the text back: a split
    removes nothing but occurrences of the separator. *)
Lemma join_split_go sep m s k :
  sep <> [] -> join sep (split_go sep m k s) = skipn k s.
Proof.
  intros Hsep. revert m k. induction s as [|c t IH]; intros m k.
  - destruct k; reflexivity.
  - destruct k as [|k]; [| apply IH].
    simpl split_go.
    destruct (may_split m && starts_with sep (c :: t)) eqn:E.
    + apply andb_true_iff in E. destruct E as [_ E].
      pose proof (split_go_nonnil sep (option_map pred m) (pred (length sep)) t) as Hn.
      simpl join.
      destruct (split_go sep (option_map pred m) (pred (length sep)) t) eqn:Es;
        [congruence|].
      rewrite <- Es, IH.
      destruct sep as [|a sep']; [congruence|].
      simpl skipn. simpl length. simpl pred.
      pose proof (starts_with_split _ _ E) as Hs.
      simpl in Hs. injection Hs as Ha Hs. subst a.
      simpl. f_equal. symmetry. exact Hs.
    + rewrite join_push by apply split_go_nonnil.
      rewrite IH. reflexivity.
Qed.

Lemma hd_push c chunks : hd [] (push c chunks) = c :: hd [] chunks.
Proof. destruct chunks; reflexivity. Qed.

(** A prefix of the text without the separator's first character stays in
    the first chunk. *)
Lemma split_go_lead a sep' pre s :
  has_char a pre = false -> starts_with pre s = true ->
  starts_with pre (hd [] (split_go (a :: sep') None 0 s)) = true.
Proof.
  revert s. induction pre as [|c pre IH]; intros s Hc Hs; [reflexivity|].
  destruct s as [|b t]; [discriminate|].
  simpl in Hc, Hs. apply orb_false_iff in Hc. destruct Hc as [Hc1 Hc2].
  apply andb_true_iff in Hs. destruct Hs as [E Hs].
  apply N.eqb_eq in E. subst b.
  simpl split_go. simpl starts_with at 2. rewrite Hc1. simpl.
  rewrite hd_push. simpl. rewrite N.eqb_refl. exact (IH t Hc2 Hs).
Qed.

Lemma split_go_exhausted sep s : split_go sep (Some 0) 0 s = [s].
Proof.
  induction s as [|c t IH]; [reflexivity|].
  simpl. rewrite IH. reflexivity.
Qed.

Lemma split_once s :
  split_go [NL] (Some 1) 0 s =
  first_line s :: match after_first_line s with Some b => [b] | None => [] end.
Proof.
  induction s as [|c t IH]; [reflexivity|].
  cbn [split_go first_line after_first_line starts_with may_split option_map
       pred length].
  rewrite (N.eqb_sym NL c), andb_true_r. destruct (c =? NL)%N.
  - rewrite split_go_exhausted. reflexivity.
  - rewrite IH. reflexivity.
Qed.

Lemma add_section_blocks doc section :
  add_section doc section = Ok (doc ++ section_blocks section).
Proof.
  unfold add_section, section_blocks.
  destruct (is_nil (strip section)); [rewrite app_nil_r; reflexivity|].
  simpl str_split. simpl bind. rewrite split_once.
  unfold add_heading, add_paragraph.
  destruct (after_first_line section); [rewrite <- app_assoc|]; reflexivity.
Qed.

Lemma for_each_add_section sections doc :
  for_each add_section sections doc = Ok (doc ++ flat_map section_blocks sections).
Proof.
  revert doc. induction sections as [|x rest IH]; intros doc; simpl.
  - rewrite app_nil_r. reflexivity.
  - rewrite add_section_blocks. simpl. rewrite IH, <- app_assoc. reflexivity.
Qed.

Lemma save_report_blocks unicode_alnum content filename_base file_name timestamp :
  save_report unicode_alnum content filename_base file_name timestamp =
  let chunks := split_go (NL :: lit "# ") None 0 content in
  Ok (docx_name unicode_alnum filename_base file_name timestamp,
      Heading (lit "Code Analysis Report") 0 :: Paragraph (hd [] chunks)
      :: flat_map section_blocks (tl chunks)).
Proof.
  unfold save_report. simpl str_split. simpl bind.
  rewrite for_each_add_section. reflexivity.
Qed.

Lemma first_line_app title body :
  has_char NL title = false -> first_line (title ++ NL :: body) = title.
Proof.
  induction title as [|c t IH]; intros H.
  - cbn [app first_line]. rewrite N.eqb_refl. reflexivity.
  - cbn [has_char existsb] in H. apply orb_false_iff in H. destruct H as [H1 H2].
    cbn [app first_line]. rewrite N.eqb_sym, H1. f_equal. exact (IH H2).
Qed.

Lemma after_first_line_app title body :
  has_char NL title = false -> after_first_line (title ++ NL :: body) = Some body.
Proof.
  induction title as [|c t IH]; intros H.
  - cbn [app after_first_line]. rewrite N.eqb_refl. reflexivity.
  - cbn [has_char existsb] in H. apply orb_false_iff in H. destruct H as [H1 H2].
    cbn [app after_first_line]. rewrite N.eqb_sym, H1. exact (IH H2).
Qed.

(** C10.  The document of [save_report] is the title, the first chunk as a
    paragraph whatever it holds, and the blocks of the later chunks, where
    the chunks are the pieces of the text between occurrences of
    newline-hash-space: joining them with that separator gives the text
    back; a start of the text without a line break, such as a heading
    marker and its line, stays in the first chunk; a later chunk that is
    blank adds nothing to the document. *)
Theorem free_text_split unicode_alnum content filename_base file_name timestamp :
  let sep := NL :: lit "# " in
  let chunks := split_go sep None 0 content in
  save_report unicode_alnum content filename_base file_name timestamp
  = Ok (docx_name unicode_alnum filename_base file_name timestamp,
        Heading (lit "Code Analysis Report") 0 :: Paragraph (hd [] chunks)
        :: flat_map section_blocks (tl chunks))
  /\ join sep chunks = content
  /\ (forall pre, has_char NL pre = false -> starts_with pre content = true ->
        starts_with pre (hd [] chunks) = true)
  /\ (forall section, is_nil (strip section) = true -> section_blocks section = [])
  /\ (forall doc section, is_nil (strip section) = true ->
        add_section doc section = Ok doc).
Proof.
  intros sep chunks. split; [apply save_report_blocks|].
  split; [apply (join_split_go sep None content 0); discriminate|].
  split; [intros pre; apply split_go_lead|].
  split.
  - intros section H. unfold section_blocks. rewrite H. reflexivity.
  - intros doc section H. unfold add_section. rewrite H. reflexivity.
Qed.

Lemma free_text_split_witness :
  let content := lit "# Top" ++ [NL] ++ lit "lead" ++ [NL] ++ lit "#  "
                 ++ [NL] ++ lit "# Perf" in
  let chunks := split_go (NL :: lit "# ") None 0 content in
  (has_char NL (lit "# Top") = false /\ starts_with (lit "# Top") content = true)
  /\ starts_with (lit "# Top") (hd [] chunks) = true
  /\ is_nil (strip (lit " ")) = true
  /\ section_blocks (lit " ") = [].
Proof.
  intros content chunks.
  destruct (free_text_split (fun _ => false) content [] None [])
    as [_ [_ [H1 [H2 _]]]].
  split; [split; reflexivity|].
  split; [apply H1; reflexivity|].
  split; [reflexivity | apply H2; reflexivity].
Defined.

(** The split of the witness above, in full: the heading line at the start
    is part of the lead paragraph and the blank chunk leaves no trace. *)
Lemma free_text_split_example :
  save_report (fun _ => false)
    (lit "# Top" ++ [NL] ++ lit "lead" ++ [NL] ++ lit "#  " ++ [NL] ++ lit "# Perf")
    (lit "r") None (lit "ts")
  = Ok (lit "r_ts.docx",
        [ Heading (lit "Code Analysis Report") 0;
          Paragraph (lit "# Top" ++ [NL] ++ lit "lead");
          Heading (lit "Perf") 1 ])
  /\ save_report (fun _ => false) [] (lit "r") None (lit "ts")
     = Ok (lit "r_ts.docx", [Heading (lit "Code Analysis Report") 0; Paragraph []]).
Proof. split; reflexivity. Qed.

(** * Where normalization is applied *)

(** C4, as the source has it.  In structured mode every section body is
    [clean_text] of the category's output; in free-text split mode the
    chunks go into the document as they are: the lead chunk, and for a
    chunk made of a title line and a body, that title and that body. *)
Theorem normalization_by_mode :
  (forall inputs,
     sections_of (generate_docx_report inputs) =
     [ (lit "Code Analysis Output",
         clean_text (take_result
           (dict_get_default inputs (lit "code_analysis_output") (VStr NO_OUTPUT))));
       (lit "Security Analysis Output",
         clean_text (dict_get_default inputs (lit "security_analysis_output") (VStr NO_OUTPUT)));
       (lit "Performance Analysis Output",
         clean_text (dict_get_default inputs (lit "performance_analysis_output") (VStr NO_OUTPUT)));
       (lit "Architecture Analysis Output",
         clean_text (dict_get_default inputs (lit "code_test_output") (VStr NO_OUTPUT)));
       (lit "Best Practices Output",
         clean_text (dict_get_default inputs (lit "best_practices_output") (VStr NO_OUTPUT))) ])
  /\ (forall unicode_alnum content filename_base file_name timestamp,
        let chunks := split_go (NL :: lit "# ") None 0 content in
        save_report unicode_alnum content filename_base file_name timestamp
        = Ok (docx_name unicode_alnum filename_base file_name timestamp,
              Heading (lit "Code Analysis Report") 0 :: Paragraph (hd [] chunks)
              :: flat_map section_blocks (tl chunks)))
  /\ (forall title body,
        has_char NL title = false ->
        is_nil (strip (title ++ NL :: body)) = false ->
        section_blocks (title ++ NL :: body) = [Heading title 1; Paragraph body]).
Proof.
  split; [apply generate_docx_report_sections|].
  split; [intros; apply save_report_blocks|].
  intros title body Ht Hs. unfold section_blocks. rewrite Hs.
  rewrite (first_line_app _ _ Ht), (after_first_line_app _ _ Ht). reflexivity.
Qed.

Lemma normalization_by_mode_witness :
  let title := lit "T" in
  let body := lit "x\ny " in
  has_char NL title = false
  /\ is_nil (strip (title ++ NL :: body)) = false
  /\ section_blocks (title ++ NL :: body) = [Heading title 1; Paragraph body].
Proof.
  intros title body.
  destruct normalization_by_mode as [_ [_ H]].
  split; [reflexivity|]. split; [reflexivity|].
  apply H; reflexivity.
Defined.

(** C4, as the claim has it, fails in free-text split mode: a body with a
    literal backslash-n and a trailing blank is written as it is, and no
    text [clean_text] returns ends in a blank. *)
Lemma save_report_not_normalized :
  let body := lit "x\ny " in
  let content := lit "lead" ++ [NL] ++ lit "# T" ++ [NL] ++ body in
  save_report (fun _ => false) content (lit "r") None (lit "ts")
  = Ok (lit "r_ts.docx",
        [ Heading (lit "Code Analysis Report") 0; Paragraph (lit "lead");
          Heading (lit "T") 1; Paragraph body ])
  /\ clean_text (VStr body) = lit "x y"
  /\ forall v, clean_text v <> body.
Proof.
  intros body content. split; [reflexivity|]. split; [reflexivity|].
  intros v H. pose proof (strip_last
    (remove_char CR (squeeze NL (replace2 BSL LOW_T [SP; SP; SP; SP]
       (replace2 BSL LOW_N [SP] (py_str v)))))) as Hl.
  rewrite <- clean_text_steps, H in Hl. discriminate.
Qed.

(** * The name of the report file *)

Lemma invalid_char_allowed unicode_alnum c :
  invalid_char unicode_alnum c = negb (allowed unicode_alnum c).
Proof.
  unfold invalid_char, allowed, is_word.
  destruct (isalnum unicode_alnum c), (c =? UNDERSCORE)%N, (c =? HYPHEN)%N;
    reflexivity.
Qed.

Lemma re_sub_sanitize unicode_alnum s :
  re_sub [One (invalid_char unicode_alnum)] [UNDERSCORE] s = sanitize unicode_alnum s.
Proof.
  rewrite re_sub_class. unfold sanitize. apply map_ext.
  intros c. rewrite invalid_char_allowed.
  destruct (allowed unicode_alnum c); reflexivity.
Qed.

Lemma allowed_underscore unicode_alnum : allowed unicode_alnum UNDERSCORE = true.
Proof. unfold allowed. rewrite N.eqb_refl, orb_true_r. reflexivity. Qed.

Lemma sanitize_allowed unicode_alnum s :
  forallb (allowed unicode_alnum) (sanitize unicode_alnum s) = true.
Proof.
  induction s as [|c t IH]; [reflexivity|].
  cbn [sanitize map forallb]. fold (sanitize unicode_alnum t). rewrite IH, andb_true_r.
  destruct (allowed unicode_alnum c) eqn:E; [exact E | apply allowed_underscore].
Qed.

Lemma rfind_from_none c s i : rfind_from c i s = None -> has_char c s = false.
Proof.
  revert i. induction s as [|x t IH]; intros i; [reflexivity|].
  cbn [rfind_from has_char existsb].
  destruct (rfind_from c (S i) t) eqn:E; [discriminate|].
  rewrite (N.eqb_sym c x). destruct (x =? c)%N; [discriminate|].
  intros _. exact (IH _ E).
Qed.

Lemma rfind_from_some c s i j :
  rfind_from c i s = Some j ->
  i <= j /\ j - i < length s
  /\ skipn (j - i) s = c :: skipn (S (j - i)) s
  /\ has_char c (skipn (S (j - i)) s) = false.
Proof.
  revert i. induction s as [|x t IH]; intros i; [discriminate|].
  cbn [rfind_from]. destruct (rfind_from c (S i) t) as [j'|] eqn:E.
  - intros H. injection H as ->.
    destruct (IH _ E) as [H1 [H2 [H3 H4]]].
    replace (j - i) with (S (j - S i)) by lia.
    cbn [length]. repeat split; try lia; assumption.
  - destruct (x =? c)%N eqn:Ex; [| discriminate].
    intros H. injection H as ->. apply N.eqb_eq in Ex. subst x.
    rewrite Nat.sub_diag. cbn [length skipn].
    repeat split; try lia. exact (rfind_from_none _ _ _ E).
Qed.

(** The stem is the final component without its extension: what is cut off
    is empty or a dot followed by characters other than a dot. *)
Lemma path_stem_ext p :
  exists ext, path_name p = path_stem p ++ ext
              /\ (ext = [] \/ exists e, ext = DOT :: e /\ has_char DOT e = false).
Proof.
  unfold path_stem.
  destruct (rfind_from DOT 0 (path_name p)) as [i|] eqn:E.
  - destruct ((0 <? i) && (i <? length (path_name p) - 1)).
    + exists (skipn i (path_name p)). split; [symmetry; apply firstn_skipn|].
      right. destruct (rfind_from_some _ _ _ _ E) as [_ [_ [H3 H4]]].
      rewrite Nat.sub_0_r in H3, H4.
      exists (skipn (S i) (path_name p)). split; assumption.
    + exists []. rewrite app_nil_r. auto.
  - exists []. rewrite app_nil_r. auto.
Qed.

Lemma path_stem_nonnil p : path_name p <> [] -> path_stem p <> [].
Proof.
  unfold path_stem. intros Hn.
  destruct (rfind_from DOT 0 (path_name p)) as [i|]; [| exact Hn].
  destruct ((0 <? i) && (i <? length (path_name p) - 1)) eqn:E; [| exact Hn].
  apply andb_true_iff in E. destruct E as [E _]. apply Nat.ltb_lt in E.
  destruct i as [|i]; [lia|].
  destruct (path_name p); [congruence | discriminate].
Qed.

(** C6.  With a non-empty hint the file name is the stem of the hint's final
    component, each character outside letters, digits, underscore and hyphen
    turned into an underscore, followed by [_analysis_], the timestamp and
    the extension; that base has only characters of the set and is not
    empty when the hint has a final component.  Without a hint the name is
    the fallback base, an underscore, the timestamp and the extension, and
    [kickoff] passes the fixed base [code_analysis_report]. *)
Theorem report_file_name unicode_alnum content filename_base hint timestamp :
  let base := sanitize unicode_alnum (path_stem hint) in
  (hint <> [] ->
   exists doc,
     save_report unicode_alnum content filename_base (Some hint) timestamp
     = Ok (base ++ lit "_analysis_" ++ timestamp ++ lit ".docx", doc))
  /\ (exists ext, path_name hint = path_stem hint ++ ext
        /\ (ext = [] \/ exists e, ext = DOT :: e /\ has_char DOT e = false))
  /\ length base = length (path_stem hint)
  /\ (forall i c, nth_error (path_stem hint) i = Some c ->
        nth_error base i = Some (if allowed unicode_alnum c then c else UNDERSCORE))
  /\ forallb (allowed unicode_alnum) base = true
  /\ (path_name hint <> [] -> base <> [])
  /\ (forall file_name, file_name = None \/ file_name = Some [] ->
        exists doc,
          save_report unicode_alnum content filename_base file_name timestamp
          = Ok (filename_base ++ lit "_" ++ timestamp ++ lit ".docx", doc))
  /\ (forall (run_result : value) (inputs : dict str),
        truthy run_result = true ->
        dict_get_default inputs (lit "file_name") [] = [] ->
        exists doc,
          kickoff_save unicode_alnum run_result inputs timestamp
          = Some (Ok (lit "code_analysis_report" ++ lit "_" ++ timestamp
                      ++ lit ".docx", doc))).
Proof.
  intros base. split.
  { intros Hh. rewrite save_report_blocks. eexists. cbv zeta. f_equal. f_equal.
    unfold docx_name. destruct hint as [|c t]; [congruence|].
    rewrite re_sub_sanitize. reflexivity. }
  split; [apply path_stem_ext|].
  split; [apply length_map|].
  split.
  { intros i c H. unfold base, sanitize. rewrite nth_error_map, H. reflexivity. }
  split; [apply sanitize_allowed|].
  split.
  { intros Hn E. apply (path_stem_nonnil _ Hn).
    unfold base, sanitize in E. apply map_eq_nil in E. exact E. }
  split.
  { intros file_name [-> | ->]; rewrite save_report_blocks; eexists; reflexivity. }
  intros run_result inputs Hc Hf. unfold kickoff_save. cbv zeta.
  rewrite Hf, Hc, save_report_blocks. eexists. reflexivity.
Qed.

Lemma report_file_name_witness :
  let hint := lit "/tmp/x/my app.tar.py" in
  (hint <> [] /\ path_name hint <> [])
  /\ (exists doc,
        save_report (fun _ => false) (lit "text") (lit "code_analysis_report")
          (Some hint) (lit "20240131_235959")
        = Ok (lit "my_app_tar_analysis_20240131_235959.docx", doc))
  /\ sanitize (fun _ => false) (path_stem hint) <> [].
Proof.
  intros hint.
  destruct (report_file_name (fun _ => false) (lit "text")
              (lit "code_analysis_report") hint (lit "20240131_235959"))
    as [H1 [_ [_ [_ [_ [H2 _]]]]]].
  assert (Hh : hint <> []) by discriminate.
  assert (Hn : path_name hint <> []) by (vm_compute; discriminate).
  split; [split; assumption|].
  split; [exact (H1 Hh) | exact (H2 Hn)].
Defined.

(** A hint without a final component, such as the root directory, gives an
    empty base. *)
Lemma report_file_name_root :
  path_name [SLASH] = [] /\
  docx_name (fun _ => false) (lit "r") (Some [SLASH]) (lit "ts")
  = lit "_analysis_ts.docx".
Proof. split; reflexivity. Qed.

(** * The task graph: [Codesystem.crew] *)

Lemma str_eqb_eq a b : str_eqb a b = true <-> a = b.
Proof.
  unfold str_eqb. destruct (list_eq_dec N.eq_dec a b); split; congruence.
Qed.

Lemma str_eqb_refl a : str_eqb a a = true.
Proof. apply str_eqb_eq. reflexivity. Qed.

Lemma str_eqb_neq a b : str_eqb a b = false <-> a <> b.
Proof.
  unfold str_eqb. destruct (list_eq_dec N.eq_dec a b); split; congruence.
Qed.

Lemma dict_get_set {V} (d : dict V) k v k' :
  dict_get (dict_set d k v) k' = if str_eqb k k' then Some v else dict_get d k'.
Proof.
  induction d as [|[k0 v0] d IH]; simpl.
  - reflexivity.
  - destruct (str_eqb k0 k) eqn:E; simpl.
    + apply str_eqb_eq in E. subst k0. destruct (str_eqb k k'); reflexivity.
    + rewrite IH. destruct (str_eqb k0 k') eqn:E'; [| reflexivity].
      apply str_eqb_eq in E'. subst k0.
      replace (str_eqb k k') with false; [reflexivity|].
      symmetry. apply str_eqb_neq. intros ->. rewrite str_eqb_refl in E.
      discriminate.
Qed.








Lemma firstn_app_le {A} (l l' : list A) i :
  i <= length l -> firstn i (l ++ l') = firstn i l.
Proof.
  intros H. rewrite firstn_app. replace (i - length l) with 0 by lia.
  simpl. apply app_nil_r.
Qed.



(** A round that returns has found the agent and an [expected_output], and
    has appended the new task to both collections. *)
Lemma add_task_inv agents tasks task_outputs name cfg st' :
  add_task agents (tasks, task_outputs) (name, cfg) = Ok st' ->
  exists kwargs u,
    task_kwargs agents task_outputs cfg = Ok kwargs
    /\ Task_new kwargs = Ok u
    /\ unit_of agents cfg u
    /\ ka_dependencies kwargs
       = match dependencies cfg with
         | Some names => resolve task_outputs names
         | None => []
         end
    /\ st' = (tasks ++ [u], dict_set task_outputs name u).
Proof.
  intros H.
  destruct (dict_get agents (agent cfg)) as [w|] eqn:Ew;
    [| unfold add_task, task_kwargs, dict_getitem in H; rewrite Ew in H;
       discriminate].
  destruct (expected_output cfg) as [e|] eqn:Ee;
    [| unfold add_task, task_kwargs, dict_getitem, Task_new in H;
       rewrite Ew in H; cbn [bind ka_expected_output] in H; rewrite Ee in H;
       discriminate].
  assert (Hk : task_kwargs agents task_outputs cfg
               = Ok {| ka_description := description cfg;
                       ka_expected_output := Some e;
                       ka_agent := w;
                       ka_dependencies :=
                         match dependencies cfg with
                         | Some names => resolve task_outputs names
                         | None => []
                         end;
                       ka_verbose := true |}).
  { unfold task_kwargs, dict_getitem. rewrite Ew, Ee. reflexivity. }
  unfold add_task in H. rewrite Hk in H. cbn in H. injection H as <-.
  eexists. exists (mkTask (description cfg) e w).
  split; [exact Hk|]. split; [reflexivity|]. split.
  - split; [reflexivity|]. split; [exact Ee | exact Ew].
  - split; reflexivity.
Qed.

Lemma add_task_ok agents tasks task_outputs name cfg w e :
  dict_get agents (agent cfg) = Some w -> expected_output cfg = Some e ->
  add_task agents (tasks, task_outputs) (name, cfg)
  = Ok (tasks ++ [mkTask (description cfg) e w],
        dict_set task_outputs name (mkTask (description cfg) e w)).
Proof.
  intros Hw He. unfold add_task, task_kwargs, dict_getitem. rewrite Hw.
  cbn [bind]. unfold Task_new. cbn [ka_expected_output ka_description ka_agent].
  rewrite He. reflexivity.
Qed.





(** With an [expected_output] everywhere, the exception is the [KeyError]
    of an agent name that does not resolve. *)
Lemma crew_loop_fail agents items :
  forall st,
    (forall name cfg, In (name, cfg) items -> expected_output cfg <> None) ->
    (exists name cfg, In (name, cfg) items /\ dict_get agents (agent cfg) = None) ->
    exists name cfg,
      In (name, cfg) items /\ dict_get agents (agent cfg) = None
      /\ for_each (add_task agents) items st = Raise (KeyError (agent cfg)).
Proof.
  induction items as [|[name cfg] rest IH];
    intros [tasks task_outputs] He [n [c [Hin Hn]]].
  - destruct Hin.
  - cbn [for_each].
    destruct (dict_get agents (agent cfg)) as [w|] eqn:Ew.
    + destruct (expected_output cfg) as [e|] eqn:Ee;
        [| exfalso; exact (He name cfg (or_introl eq_refl) Ee)].
      rewrite (add_task_ok _ _ _ name _ _ _ Ew Ee). cbn [bind].
      destruct Hin as [E | Hin]; [injection E as -> ->; congruence|].
      destruct (IH (tasks ++ [mkTask (description cfg) e w],
                    dict_set task_outputs name (mkTask (description cfg) e w)))
        as [n' [c' [Hin' [Hn' Hrun]]]].
      * intros n' c' Hin'. apply (He n' c'). right. exact Hin'.
      * exists n, c. split; assumption.
      * exists n', c'. split; [right; exact Hin'|]. split; assumption.
    + exists name, cfg. split; [left; reflexivity|]. split; [exact Ew|].
      unfold add_task, task_kwargs, dict_getitem. rewrite Ew. reflexivity.
Qed.

Lemma build_agents_fold_none (l : dict AgentConfig) (acc : dict Agent) a :
  dict_get
    (fold_left
       (fun agents '(agent_name, agent_config) =>
          dict_set agents agent_name
            (mkAgent (role agent_config) (goal agent_config)
                     (backstory agent_config) true)) l acc) a = None
  <-> ~ In a (dict_keys l) /\ dict_get acc a = None.
Proof.
  revert acc. induction l as [|[n c] l IH]; intros acc.
  - simpl. split; [intros H; split; [intros [] | exact H] | intros [_ H]; exact H].
  - cbn [fold_left dict_keys map fst In]. fold (dict_keys l).
    rewrite IH, dict_get_set. destruct (str_eqb n a) eqn:E.
    + apply str_eqb_eq in E. split; [intros [_ H]; discriminate|].
      intros [H _]. exfalso. apply H. left. exact E.
    + apply str_eqb_neq in E. split.
      * intros [H1 H2]. split; [| exact H2].
        intros [H | H]; [exact (E H) | exact (H1 H)].
      * intros [H1 H2]. split; [| exact H2].
        intros H. apply H1. right. exact H.
Qed.

(** An agent name resolves exactly when it is a key of the agent
    definitions. *)
Lemma build_agents_none agents_config a :
  dict_get (build_agents agents_config) a = None <-> ~ In a (dict_keys agents_config).
Proof.
  unfold build_agents. rewrite build_agents_fold_none. simpl.
  split; [intros [H _]; exact H | intros H; split; [exact H | reflexivity]].
Qed.





Lemma Crew_new_inv agents tasks verbose c :
  Crew_new agents tasks verbose = Ok c ->
  crew_agents c = agents /\ crew_tasks c = tasks.
Proof.
  unfold Crew_new. destruct agents, tasks; try discriminate;
    intros H; injection H as <-; split; reflexivity.
Qed.

(** What [crew] has done when it returns. *)
Lemma crew_inv agents_config tasks_config c task_outputs :
  crew agents_config tasks_config = Ok (c, task_outputs) ->
  for_each (add_task (build_agents agents_config)) tasks_config ([], [])
  = Ok (crew_tasks c, task_outputs)
  /\ crew_agents c = dict_values (build_agents agents_config).
Proof.
  unfold crew. cbv zeta.
  destruct (for_each (add_task (build_agents agents_config)) tasks_config ([], []))
    as [[tasks outs]|e]; [| discriminate].
  cbn [bind].
  destruct (Crew_new (dict_values (build_agents agents_config)) tasks true)
    as [c'|e] eqn:Ec; [| discriminate].
  cbn [bind]. intros H. injection H as <- <-.
  destruct (Crew_new_inv _ _ _ _ Ec) as [Ha Ht]. rewrite Ha, Ht.
  split; reflexivity.
Qed.

Lemma all_expected_true tasks_config :
  all_expected tasks_config = true ->
  forall name cfg, In (name, cfg) tasks_config -> expected_output cfg <> None.
Proof.
  unfold all_expected. rewrite forallb_forall. intros H name cfg Hin E.
  specialize (H (name, cfg) Hin). cbn [snd] in H. rewrite E in H. discriminate.
Qed.





Lemma existsb_str_eqb a l : existsb (str_eqb a) l = true <-> In a l.
Proof.
  rewrite existsb_exists. split.
  - intros [x [Hx E]]. apply str_eqb_eq in E. subst x. exact Hx.
  - intros H. exists a. split; [exact H | apply str_eqb_refl].
Qed.

Lemma distinct_NoDup names : distinct names = true -> NoDup names.
Proof.
  induction names as [|x t IH]; intros H; [constructor|].
  cbn [distinct] in H. apply andb_true_iff in H. destruct H as [H1 H2].
  constructor; [| exact (IH H2)].
  intros Hin. apply existsb_str_eqb in Hin. rewrite Hin in H1. discriminate.
Qed.

Lemma all_resolve_true agents_config tasks_config :
  all_resolve agents_config tasks_config = true ->
  forall name cfg, In (name, cfg) tasks_config ->
    In (agent cfg) (dict_keys agents_config).
Proof.
  unfold all_resolve. rewrite forallb_forall. intros H name cfg Hin.
  apply existsb_str_eqb. exact (H (name, cfg) Hin).
Qed.

Lemma all_resolve_false agents_config tasks_config :
  all_resolve agents_config tasks_config = false ->
  exists name cfg, In (name, cfg) tasks_config
                   /\ resolves agents_config (agent cfg) = false.
Proof.
  unfold all_resolve. induction tasks_config as [|[name cfg] rest IH]; [discriminate|].
  cbn [forallb snd]. intros H. apply andb_false_iff in H. destruct H as [H | H].
  - exists name, cfg. split; [left; reflexivity | exact H].
  - destruct (IH H) as [n [c [Hin Hc]]]. exists n, c. split; [right; exact Hin | exact Hc].
Qed.

Lemma crew_raise agents_config tasks_config e :
  for_each (add_task (build_agents agents_config)) tasks_config ([], []) = Raise e ->
  crew agents_config tasks_config = Raise e.
Proof.
  intros H. unfold crew. cbv zeta.
  match goal with
  | |- context [bind ?m _] =>
      replace m with (@Raise (list Task * dict Task) e) by (symmetry; exact H)
  end.
  reflexivity.
Qed.

Lemma resolves_false agents_config a :
  resolves agents_config a = false ->
  dict_get (build_agents agents_config) a = None.
Proof.
  intros H. apply build_agents_none. intros Hin.
  apply existsb_str_eqb in Hin. unfold resolves in H. congruence.
Qed.

Lemma resolves_none agents_config a :
  dict_get (build_agents agents_config) a = None ->
  resolves agents_config a = false.
Proof.
  intros Hn. apply build_agents_none in Hn. unfold resolves.
  destruct (existsb (str_eqb a) (dict_keys agents_config)) eqn:E; [| reflexivity].
  apply existsb_str_eqb in E. contradiction.
Qed.





(** ** The claims on [crew], on a configuration with a forward reference *)


(** The build of [demo_tasks], in full: the forward reference of [B] to [C]
    is dropped, and the units appear in the lists handed to [Task] for the
    later ones. *)
Lemma demo_build :
  exists c task_outputs a b c' oB kB oC kC,
    crew demo_agents demo_tasks = Ok (c, task_outputs)
    /\ crew_tasks c = [a; b; c']
    /\ dict_keys task_outputs = [lit "A"; lit "B"; lit "C"]
    /\ state_before (build_agents demo_agents) demo_tasks 1 = Ok ([a], oB)
    /\ task_kwargs (build_agents demo_agents) oB
         (demo_task "secure" "analyst" (Some [lit "A"; lit "C"])) = Ok kB
    /\ ka_dependencies kB = [a]
    /\ state_before (build_agents demo_agents) demo_tasks 2 = Ok ([a; b], oC)
    /\ task_kwargs (build_agents demo_agents) oC
         (demo_task "report" "analyst" (Some [lit "A"; lit "B"])) = Ok kC
    /\ ka_dependencies kC = [a; b].
Proof.
  do 9 eexists.
  split; [vm_compute; reflexivity|].
  split; [reflexivity|]. split; [reflexivity|].
  split; [vm_compute; reflexivity|]. split; [vm_compute; reflexivity|].
  split; [reflexivity|].
  split; [vm_compute; reflexivity|]. split; [vm_compute; reflexivity|].
  reflexivity.
Qed.



(** The error of [ghost_tasks] names the missing agent. *)
Lemma ghost_build : crew demo_agents ghost_tasks = Raise (KeyError (lit "ghost")).
Proof. reflexivity. Qed.

(** A task definition without [expected_output] stops the build at its
    round, before a later agent name is looked up; and so does a
    configuration with neither agents nor tasks, at the end. *)
Lemma invalid_builds :
  crew demo_agents
    [ (lit "A", bare_task "analyse" "analyst");
      (lit "B", demo_task "secure" "ghost" None) ]
  = Raise (ValidationError (lit "Task"))
  /\ crew [] [] = Raise (ValidationError (lit "Crew")).
Proof. split; reflexivity. Qed.

(** * Further properties of [clean_text] *)

Lemma clean_text_no_cr v : has_char CR (clean_text v) = false.
Proof. rewrite clean_text_steps. apply has_char_strip, remove_char_gone. Qed.

(** A text without escape sequence, carriage return, run of line breaks or
    blank at either end is left as it is. *)
Lemma clean_text_fixed y :
  has_pair BSL LOW_N y = false -> has_pair BSL LOW_T y = false ->
  has_char CR y = false -> has_pair NL NL y = false ->
  first_is_space y = false -> last_is_space y = false ->
  clean_text (VStr y) = y.
Proof.
  intros Hn Ht Hc Hnn Hf Hl.
  rewrite (clean_text_plain y Hn Ht Hc), (squeeze_id _ _ Hnn).
  apply strip_id; assumption.
Qed.

(** X1.  Whatever the value, a second pass of [clean_text] reaches a text
    that further passes leave unchanged. *)
Theorem clean_text_settles (v : value) :
  let y := clean_text (VStr (clean_text v)) in
  clean_text (VStr y) = y.
Proof.
  intros y.
  destruct (clean_text_clean (clean_text v) (clean_text_no_cr v))
    as [Hn [Ht [Hc Hnn]]].
  apply clean_text_fixed; try assumption; unfold y; rewrite clean_text_steps.
  - apply strip_first.
  - apply strip_last.
Qed.

Lemma spaces_no_pair a b s :
  isspace a = false -> forallb isspace s = true -> has_pair a b s = false.
Proof.
  intros Ha. induction s as [|x t IH]; [reflexivity|].
  cbn [forallb has_pair]. intros H. apply andb_true_iff in H. destruct H as [Hx H].
  rewrite (IH H), orb_false_r.
  destruct (x =? a)%N eqn:E; [| reflexivity].
  apply N.eqb_eq in E. subst x. congruence.
Qed.

Lemma strip_spaces s : forallb isspace s = true -> strip s = [].
Proof.
  intros H. replace s with (s ++ [] ++ []) by apply app_nil_r.
  apply strip_unique; auto.
Qed.

Lemma remove_char_spaces c s :
  forallb isspace s = true -> forallb isspace (remove_char c s) = true.
Proof.
  induction s as [|x t IH]; [reflexivity|].
  cbn [forallb remove_char filter]. intros H.
  apply andb_true_iff in H. destruct H as [Hx H].
  destruct (negb (x =? c)%N); [cbn [forallb]; rewrite Hx|]; exact (IH H).
Qed.

(** X2.  A string made of whitespace only, the empty string included, is
    normalized to the empty string. *)
Theorem clean_text_blank (x : str) :
  forallb isspace x = true -> clean_text (VStr x) = [].
Proof.
  intros H. rewrite clean_text_steps. cbn [py_str].
  rewrite (replace2_id BSL LOW_N [SP] x) by (apply spaces_no_pair; [reflexivity | exact H]).
  rewrite (replace2_id BSL LOW_T _ x) by (apply spaces_no_pair; [reflexivity | exact H]).
  apply strip_spaces, remove_char_spaces, squeeze_spaces, H.
Qed.

Lemma clean_text_blank_witness :
  let x := [SP; NL; CR; 9%N; NL; 160%N] in
  forallb isspace x = true /\ clean_text (VStr x) = [].
Proof.
  intros x. split; [reflexivity|]. apply (clean_text_blank x). reflexivity.
Defined.

Lemma replace2_length1 a b r s : length (replace2 a b [r] s) <= length s.
Proof.
  induction s as [| x | x y u IHu IHt] using list_ind2; try (cbn; lia).
  change (replace2 a b [r] (x :: y :: u))
    with (if (x =? a)%N && (y =? b)%N then [r] ++ replace2 a b [r] u
          else x :: replace2 a b [r] (y :: u)).
  destruct ((x =? a)%N && (y =? b)%N); cbn [length app] in *; lia.
Qed.

Lemma replace2_length4 a b r1 r2 r3 r4 s :
  length (replace2 a b [r1; r2; r3; r4] s) <= 2 * length s.
Proof.
  induction s as [| x | x y u IHu IHt] using list_ind2; try (cbn; lia).
  change (replace2 a b [r1; r2; r3; r4] (x :: y :: u))
    with (if (x =? a)%N && (y =? b)%N
          then [r1; r2; r3; r4] ++ replace2 a b [r1; r2; r3; r4] u
          else x :: replace2 a b [r1; r2; r3; r4] (y :: u)).
  destruct ((x =? a)%N && (y =? b)%N); cbn [length app] in *; lia.
Qed.

Lemma squeeze_length c s : length (squeeze c s) <= length s.
Proof.
  induction s as [|x t IH]; [reflexivity|].
  cbn [squeeze]. destruct ((x =? c)%N && head_is c t); cbn [length]; lia.
Qed.

Lemma strip_length s : length (strip s) <= length s.
Proof.
  destruct (strip_split s) as [l [r [E _]]].
  rewrite E at 2. rewrite !length_app. lia.
Qed.

(** X3.  The normalized text is at most twice as long as the string, and
    no longer than the string when it holds no literal backslash-t: only
    that sequence, two characters that become four, makes it grow. *)
Theorem clean_text_length (x : str) :
  length (clean_text (VStr x)) <= 2 * length x
  /\ (has_pair BSL LOW_T x = false -> length (clean_text (VStr x)) <= length x).
Proof.
  rewrite clean_text_steps. cbn [py_str]. split.
  - eapply Nat.le_trans; [apply strip_length|]. unfold remove_char.
    eapply Nat.le_trans; [apply filter_length_le|].
    eapply Nat.le_trans; [apply squeeze_length|].
    eapply Nat.le_trans; [apply replace2_length4|].
    apply Nat.mul_le_mono_l, replace2_length1.
  - intros H.
    rewrite (replace2_id BSL LOW_T [SP; SP; SP; SP])
      by (apply replace2_keeps_no_pair; [reflexivity | reflexivity | exact H]).
    eapply Nat.le_trans; [apply strip_length|]. unfold remove_char.
    eapply Nat.le_trans; [apply filter_length_le|].
    eapply Nat.le_trans; [apply squeeze_length|].
    apply replace2_length1.
Qed.

Lemma clean_text_length_witness :
  let x := BSL :: LOW_N :: lit "a" ++ [NL; NL; CR] ++ lit "b " in
  has_pair BSL LOW_T x = false
  /\ length (clean_text (VStr x)) <= length x
  /\ length (clean_text (VStr x)) = 3.
Proof.
  intros x. split; [reflexivity|]. split; [| reflexivity].
  destruct (clean_text_length x) as [_ H]. apply H. reflexivity.
Defined.

Lemma replace2_In a b repl s c :
  In c (replace2 a b repl s) -> In c s \/ In c repl.
Proof.
  induction s as [| x | x y u IHu IHt] using list_ind2; try (cbn; tauto).
  change (replace2 a b repl (x :: y :: u))
    with (if (x =? a)%N && (y =? b)%N then repl ++ replace2 a b repl u
          else x :: replace2 a b repl (y :: u)).
  destruct ((x =? a)%N && (y =? b)%N).
  - intros H. apply in_app_or in H. destruct H as [H | H]; [right; exact H|].
    destruct (IHu H) as [H' | H']; [left; right; right; exact H' | right; exact H'].
  - intros [H | H]; [left; left; exact H|].
    destruct (IHt H) as [H' | H']; [left; right; exact H' | right; exact H'].
Qed.

Lemma squeeze_In d s c : In c (squeeze d s) -> In c s.
Proof.
  induction s as [|x t IH]; [auto|].
  cbn [squeeze]. destruct ((x =? d)%N && head_is d t).
  - intros H. right. exact (IH H).
  - intros [H | H]; [left; exact H | right; exact (IH H)].
Qed.

Lemma strip_In s c : In c (strip s) -> In c s.
Proof.
  intros H. destruct (strip_split s) as [l [r [E _]]]. rewrite E.
  apply in_or_app. right. apply in_or_app. left. exact H.
Qed.

(** X4.  Normalization invents no character but the blank: every character
    of the result is a character of the string or a space, and none is a
    carriage return. *)
Theorem clean_text_characters (x : str) (c : char) :
  In c (clean_text (VStr x)) -> (In c x \/ c = SP) /\ c <> CR.
Proof.
  intros H. split.
  - rewrite clean_text_steps in H. cbn [py_str] in H.
    apply strip_In in H. unfold remove_char in H. apply filter_In in H.
    destruct H as [H _]. apply squeeze_In in H.
    apply replace2_In in H. destruct H as [H | H].
    + apply replace2_In in H. destruct H as [H | H]; [left; exact H|].
      right. destruct H as [H | []]. symmetry. exact H.
    + right. cbn in H. intuition congruence.
  - intros ->. pose proof (clean_text_no_cr (VStr x)) as Hc.
    unfold has_char in Hc.
    assert (Ht : existsb (N.eqb CR) (clean_text (VStr x)) = true).
    { apply existsb_exists. exists CR. split; [exact H | apply N.eqb_refl]. }
    congruence.
Qed.

Lemma clean_text_characters_witness :
  let x := lit "a\tb" ++ [CR] in
  In SP (clean_text (VStr x)) /\ ((In SP x \/ SP = SP) /\ SP <> CR).
Proof.
  intros x.
  assert (H : In SP (clean_text (VStr x))) by (vm_compute; tauto).
  split; [exact H|]. exact (clean_text_characters x SP H).
Defined.

(** * Further properties of the structured report *)

(** X5.  Only the code-analysis section calls [result()]: an output object
    with that method appears there through its result, and in any other
    section through its [str()] text. *)
Theorem result_method_first_only (inputs : dict value) (repr : str) (r : value) :
  (dict_get inputs (lit "code_analysis_output") = Some (VObj repr (Some r)) ->
   nth_error (sections_of (generate_docx_report inputs)) 0
   = Some (lit "Code Analysis Output", clean_text r))
  /\ (forall i key title,
        nth_error categories (S i) = Some (key, title) ->
        dict_get inputs key = Some (VObj repr (Some r)) ->
        nth_error (sections_of (generate_docx_report inputs)) (S i)
        = Some (title, clean_text (VStr repr))).
Proof.
  rewrite generate_docx_report_sections. split.
  - intros H. cbn [nth_error]. unfold dict_get_default. rewrite H. reflexivity.
  - intros i key title Hi Hk.
    do 4 (destruct i as [|i];
          [ injection Hi as <- <-; cbn [nth_error]; unfold dict_get_default;
            rewrite Hk; reflexivity |]).
    destruct i; discriminate.
Qed.

Lemma result_method_first_only_witness :
  let task := VObj (lit "<Task>") (Some (VStr (lit "done"))) in
  let inputs := [ (lit "code_analysis_output", task);
                  (lit "security_analysis_output", task) ] in
  (dict_get inputs (lit "code_analysis_output") = Some task
   /\ dict_get inputs (lit "security_analysis_output") = Some task)
  /\ nth_error (sections_of (generate_docx_report inputs)) 0
     = Some (lit "Code Analysis Output", lit "done")
  /\ nth_error (sections_of (generate_docx_report inputs)) 1
     = Some (lit "Security Analysis Output", lit "<Task>").
Proof.
  intros task inputs.
  destruct (result_method_first_only inputs (lit "<Task>") (VStr (lit "done")))
    as [H0 H1].
  split; [split; reflexivity|]. split.
  - exact (H0 eq_refl).
  - exact (H1 0 (lit "security_analysis_output") (lit "Security Analysis Output")
             eq_refl eq_refl).
Defined.

(** X6.  The report of the inputs [prepare_inputs] builds names the file by
    [str(file_path)] and shows, under the code, security, performance and
    best-practices titles, the normalized worker output of that key, or the
    placeholder when the worker gave none. *)
Theorem report_of_prepared_inputs
    (file_path code_content : value) (agent_outputs : dict value) :
  let doc := generate_docx_report
               (prepare_inputs file_path code_content agent_outputs) in
  let out key := dict_get_default agent_outputs (lit key) (VStr NO_OUTPUT) in
  nth_error doc 0 = Some (Heading (lit "Generated Report") 0)
  /\ nth_error doc 1 = Some (Paragraph (lit "File: " ++ py_str file_path))
  /\ sections_of doc =
     [ (lit "Code Analysis Output",
         clean_text (take_result (out "code_analysis_output"%string)));
       (lit "Security Analysis Output",
         clean_text (out "security_analysis_output"%string));
       (lit "Performance Analysis Output",
         clean_text (out "performance_analysis_output"%string));
       (lit "Architecture Analysis Output", NO_OUTPUT);
       (lit "Best Practices Output",
         clean_text (out "best_practices_output"%string)) ].
Proof.
  intros doc out. split; [reflexivity|]. split.
  - unfold doc. cbv [generate_docx_report add_heading add_paragraph app nth_error].
    unfold file_line.
    replace (dict_get (prepare_inputs file_path code_content agent_outputs)
               (lit "file_name"))
      with (Some (VStr (py_str file_path))) by reflexivity.
    reflexivity.
  - unfold doc. rewrite generate_docx_report_sections. unfold out.
    repeat f_equal.
Qed.

(** * Further properties of [save_report] *)

Lemma split_go_no_occurrence sep s :
  occurs sep s = false -> split_go sep None 0 s = [s].
Proof.
  induction s as [|c t IH]; [reflexivity|].
  cbn [occurs split_go may_split]. intros H.
  apply orb_false_iff in H. destruct H as [H1 H2].
  rewrite H1, (IH H2). reflexivity.
Qed.

(** X7.  A text in which newline-hash-space does not occur is written as one
    paragraph under the title, whole and unchanged. *)
Theorem save_report_single_paragraph
    unicode_alnum content filename_base file_name timestamp :
  occurs (NL :: lit "# ") content = false ->
  save_report unicode_alnum content filename_base file_name timestamp
  = Ok (docx_name unicode_alnum filename_base file_name timestamp,
        [Heading (lit "Code Analysis Report") 0; Paragraph content]).
Proof.
  intros H. rewrite save_report_blocks. cbv zeta.
  rewrite (split_go_no_occurrence _ _ H). reflexivity.
Qed.

Lemma save_report_single_paragraph_witness :
  let content := lit "# Summary" ++ [NL] ++ lit "#no space, no split" in
  occurs (NL :: lit "# ") content = false
  /\ save_report (fun _ => false) content (lit "r") None (lit "ts")
     = Ok (lit "r_ts.docx",
           [Heading (lit "Code Analysis Report") 0; Paragraph content]).
Proof.
  intros content. split; [reflexivity|].
  apply (save_report_single_paragraph (fun _ => false) content (lit "r") None
           (lit "ts")).
  reflexivity.
Defined.

Lemma infix_of_trans a b c : infix_of a b -> infix_of b c -> infix_of a c.
Proof.
  intros [l1 [r1 E1]] [l2 [r2 E2]]. exists (l2 ++ l1), (r1 ++ r2).
  rewrite E2, E1, !app_assoc. reflexivity.
Qed.

Lemma join_infix sep chunks c : In c chunks -> infix_of c (join sep chunks).
Proof.
  induction chunks as [|x rest IH]; [intros []|].
  intros [-> | H].
  - destruct rest as [|y rest'].
    + exists [], []. cbn. rewrite app_nil_r. reflexivity.
    + exists [], (sep ++ join sep (y :: rest')). reflexivity.
  - destruct rest as [|y rest']; [destruct H|].
    destruct (IH H) as [l [r E]].
    exists (x ++ sep ++ l), r.
    change (join sep (x :: y :: rest')) with (x ++ sep ++ join sep (y :: rest')).
    rewrite E, !app_assoc. reflexivity.
Qed.

Lemma chunk_infix sep s c :
  sep <> [] -> In c (split_go sep None 0 s) -> infix_of c s.
Proof.
  intros Hsep H. apply (join_infix sep) in H.
  rewrite (join_split_go sep None s 0 Hsep) in H. exact H.
Qed.

Lemma line_split s :
  s = first_line s ++ match after_first_line s with
                      | Some body => NL :: body
                      | None => []
                      end.
Proof.
  induction s as [|c t IH]; [reflexivity|].
  cbn [first_line after_first_line]. destruct (c =? NL)%N eqn:E.
  - apply N.eqb_eq in E. subst c. reflexivity.
  - cbn [app]. f_equal. exact IH.
Qed.

Lemma first_line_no_break s : has_char NL (first_line s) = false.
Proof.
  induction s as [|c t IH]; [reflexivity|].
  cbn [first_line]. destruct (c =? NL)%N eqn:E; [reflexivity|].
  cbn [has_char existsb]. rewrite N.eqb_sym, E. exact IH.
Qed.

Lemma section_blocks_infix section :
  Forall (fun b => infix_of (block_text b) section) (section_blocks section).
Proof.
  unfold section_blocks. destruct (is_nil (strip section)); [constructor|].
  pose proof (line_split section) as E.
  constructor.
  - exists [], match after_first_line section with
               | Some body => NL :: body
               | None => []
               end. exact E.
  - destruct (after_first_line section) as [body|]; constructor; [| constructor].
    exists (first_line section ++ [NL]), []. cbn [block_text].
    rewrite app_nil_r, <- app_assoc. exact E.
Qed.

Lemma section_blocks_headings section :
  Forall heading_ok (section_blocks section)
  /\ length (section_blocks section) <= 2.
Proof.
  unfold section_blocks. destruct (is_nil (strip section)).
  - split; [constructor | cbn; lia].
  - split.
    + constructor; [split; [reflexivity | apply first_line_no_break]|].
      destruct (after_first_line section); repeat constructor.
    + destruct (after_first_line section); cbn; lia.
Qed.

(** X8.  In a document that [save_report] returns, the first block is the
    title, and every text after it is a contiguous part of the content,
    taken as it is. *)
Theorem save_report_texts
    unicode_alnum content filename_base file_name timestamp name doc :
  save_report unicode_alnum content filename_base file_name timestamp
  = Ok (name, doc) ->
  hd_error doc = Some (Heading (lit "Code Analysis Report") 0)
  /\ Forall (fun b => infix_of (block_text b) content) (tl doc).
Proof.
  rewrite save_report_blocks. cbv zeta. intros E. injection E as _ <-.
  split; [reflexivity|].
  cbn [tl].
  assert (Hsep : NL :: lit "# " <> []) by discriminate.
  pose proof (split_go_nonnil (NL :: lit "# ") None 0 content) as Hn.
  destruct (split_go (NL :: lit "# ") None 0 content) as [|lead rest] eqn:Es;
    [congruence|].
  assert (Hin : forall c, In c (lead :: rest) -> infix_of c content).
  { intros c Hc. apply (chunk_infix (NL :: lit "# ")); [exact Hsep|].
    rewrite Es. exact Hc. }
  constructor.
  - apply Hin. left. reflexivity.
  - cbn [tl]. apply Forall_flat_map. apply Forall_forall. intros c Hc.
    eapply Forall_impl; [| apply section_blocks_infix].
    intros b Hb. apply (infix_of_trans _ c); [exact Hb|].
    apply Hin. right. exact Hc.
Qed.

Lemma save_report_texts_witness :
  let content := lit "intro" ++ NL :: lit "# Security" ++ NL :: lit "none found" in
  let doc := [ Heading (lit "Code Analysis Report") 0;
               Paragraph (lit "intro");
               Heading (lit "Security") 1;
               Paragraph (lit "none found") ] in
  save_report (fun _ => false) content (lit "report") (Some (lit "app.py"))
    (lit "ts")
  = Ok (lit "app_analysis_ts.docx", doc)
  /\ Forall (fun b => infix_of (block_text b) content) (tl doc).
Proof.
  intros content doc.
  assert (E : save_report (fun _ => false) content (lit "report")
                (Some (lit "app.py")) (lit "ts")
              = Ok (lit "app_analysis_ts.docx", doc)) by reflexivity.
  split; [exact E|].
  exact (proj2 (save_report_texts _ _ _ _ _ _ _ E)).
Defined.

(** X9.  After the title, every heading of the document is of level one and
    holds a single line, and the document has at most two blocks for each
    chunk of the content. *)
Theorem save_report_headings
    unicode_alnum content filename_base file_name timestamp :
  exists name doc,
    save_report unicode_alnum content filename_base file_name timestamp
    = Ok (name, doc)
    /\ Forall heading_ok (tl doc)
    /\ 2 <= length doc
       <= 2 * length (split_go (NL :: lit "# ") None 0 content).
Proof.
  rewrite save_report_blocks. cbv zeta. eexists. eexists.
  split; [reflexivity|].
  pose proof (split_go_nonnil (NL :: lit "# ") None 0 content) as Hn.
  destruct (split_go (NL :: lit "# ") None 0 content) as [|lead rest];
    [congruence|].
  cbn [tl hd length]. split.
  - constructor; [exact I|]. apply Forall_flat_map, Forall_forall.
    intros c _. apply section_blocks_headings.
  - split; [lia|].
    assert (H : length (flat_map section_blocks rest) <= 2 * length rest).
    { clear. induction rest as [|c rest IH]; [cbn; lia|].
      cbn [flat_map]. rewrite length_app. cbn [length].
      pose proof (proj2 (section_blocks_headings c)). lia. }
    lia.
Qed.

Lemma forallb_lacks (p : char -> bool) c l :
  forallb p l = true -> p c = false -> has_char c l = false.
Proof.
  intros Hl Hc. induction l as [|x t IH]; [reflexivity|].
  cbn [forallb] in Hl. apply andb_true_iff in Hl. destruct Hl as [Hx Hl].
  cbn [has_char existsb]. fold (has_char c t). rewrite (IH Hl), orb_false_r.
  destruct (c =? x)%N eqn:E; [| reflexivity].
  apply N.eqb_eq in E. subst x. congruence.
Qed.

(** X10.  With a non-empty hint and a timestamp without slash or backslash,
    the file name has neither, whatever the hint holds: the report lands in
    the output directory itself. *)
Theorem report_name_has_no_separator
    unicode_alnum content filename_base hint timestamp :
  hint <> [] ->
  has_char SLASH timestamp = false -> has_char BSL timestamp = false ->
  exists name doc,
    save_report unicode_alnum content filename_base (Some hint) timestamp
    = Ok (name, doc)
    /\ has_char SLASH name = false /\ has_char BSL name = false.
Proof.
  intros Hh Hs Hb. rewrite save_report_blocks. cbv zeta. eexists. eexists.
  split; [reflexivity|].
  unfold docx_name. destruct hint as [|c t]; [congruence|].
  rewrite re_sub_sanitize, !has_char_app, Hs, Hb.
  rewrite !(forallb_lacks (allowed unicode_alnum) _ _
              (sanitize_allowed unicode_alnum _)) by reflexivity.
  split; reflexivity.
Qed.

Lemma report_name_has_no_separator_witness :
  let hint := lit "../../etc/pass wd.txt" in
  let ts := lit "20240131_235959" in
  (hint <> [] /\ has_char SLASH ts = false /\ has_char BSL ts = false)
  /\ exists name doc,
       save_report (fun _ => false) (lit "text") (lit "r") (Some hint) ts
       = Ok (name, doc)
       /\ has_char SLASH name = false /\ has_char BSL name = false.
Proof.
  intros hint ts.
  assert (Hh : hint <> []) by discriminate.
  split; [split; [exact Hh | split; reflexivity]|].
  exact (report_name_has_no_separator (fun _ => false) (lit "text") (lit "r")
           hint ts Hh eq_refl eq_refl).
Defined.

(** * [get_code_files] *)

Lemma split_go_char_app c a b :
  split_go [c] None 0 (a ++ c :: b)
  = split_go [c] None 0 a ++ split_go [c] None 0 b.
Proof.
  induction a as [|x a IH].
  - cbn [app split_go may_split starts_with option_map length pred].
    rewrite N.eqb_refl. reflexivity.
  - cbn [app split_go may_split starts_with option_map length pred].
    rewrite IH. destruct ((c =? x)%N && true); [reflexivity|].
    pose proof (split_go_nonnil [c] None 0 a) as Hn.
    destruct (split_go [c] None 0 a); [congruence | reflexivity].
Qed.

Lemma split_go_char_none c s :
  has_char c s = false -> split_go [c] None 0 s = [s].
Proof.
  induction s as [|x t IH]; [reflexivity|].
  cbn [has_char existsb]. intros H. apply orb_false_iff in H. destruct H as [H1 H2].
  cbn [split_go may_split starts_with]. rewrite H1, (IH H2). reflexivity.
Qed.

(** The final component of a directory joined with a plain name is that
    name. *)
Lemma path_name_join root file :
  plain_name file = true -> path_name (path_join root file) = file.
Proof.
  unfold plain_name. intros H.
  apply andb_true_iff in H. destruct H as [H H3].
  apply andb_true_iff in H. destruct H as [H1 H2].
  apply negb_true_iff in H2.
  unfold path_name, path_parts, path_join.
  rewrite split_go_char_app, (split_go_char_none _ _ H2), filter_app.
  cbn [filter]. rewrite H1, H3. cbn [andb]. apply last_last.
Qed.

Lemma stem_suffix p : path_name p = path_stem p ++ path_suffix p.
Proof.
  unfold path_stem, path_suffix, name_suffix.
  destruct (rfind_from DOT 0 (path_name p)) as [i|];
    [| symmetry; apply app_nil_r].
  destruct ((0 <? i) && (i <? length (path_name p) - 1)).
  - symmetry. apply firstn_skipn.
  - symmetry. apply app_nil_r.
Qed.

Lemma suffix_stem_nonnil p : path_suffix p <> [] -> path_stem p <> [].
Proof.
  unfold path_stem, path_suffix, name_suffix.
  destruct (rfind_from DOT 0 (path_name p)) as [i|]; [| congruence].
  destruct ((0 <? i) && (i <? length (path_name p) - 1)) eqn:E; [| congruence].
  intros _. apply andb_true_iff in E. destruct E as [E1 E2].
  apply Nat.ltb_lt in E1. apply Nat.ltb_lt in E2.
  destruct (path_name p) as [|c t]; [cbn in E2; lia|].
  destruct i; [lia | discriminate].
Qed.

Lemma visit_files_fold root files acc :
  fold_left
    (fun code_files file =>
       let file_path := path_join root file in
       if existsb (str_eqb (path_suffix file_path)) code_extensions
       then code_files ++ [file_path]
       else code_files)
    files acc
  = acc ++ map (path_join root)
             (filter (fun f => existsb (str_eqb (path_suffix (path_join root f)))
                                 code_extensions) files).
Proof.
  revert acc. induction files as [|f files IH]; intros acc.
  - cbn. symmetry. apply app_nil_r.
  - cbn [fold_left filter]. rewrite IH.
    destruct (existsb (str_eqb (path_suffix (path_join root f))) code_extensions).
    + cbn [map]. rewrite <- app_assoc. reflexivity.
    + reflexivity.
Qed.

Lemma get_code_files_fold (walk : list (str * list str * list str)) acc :
  fold_left
    (fun code_files '(root, _, files) =>
       fold_left
         (fun code_files file =>
            let file_path := path_join root file in
            if existsb (str_eqb (path_suffix file_path)) code_extensions
            then code_files ++ [file_path]
            else code_files)
         files code_files)
    walk acc
  = acc ++ flat_map
             (fun '(root, _, files) =>
                map (path_join root)
                  (filter (fun f => existsb (str_eqb (path_suffix (path_join root f)))
                                      code_extensions) files))
             walk.
Proof.
  revert acc. induction walk as [|[[root dirs] files] walk IH]; intros acc.
  - cbn. symmetry. apply app_nil_r.
  - cbn [fold_left flat_map]. rewrite IH, visit_files_fold, <- app_assoc.
    reflexivity.
Qed.

(** X11.  Every path [get_code_files] returns ends in one of the twelve code
    extensions, after a stem that is not empty: a name such as [.py] alone,
    or one without a dot, is never collected. *)
Theorem get_code_files_extensions (walk : list (str * list str * list str)) :
  Forall (fun p => In (path_suffix p) code_extensions
                   /\ path_name p = path_stem p ++ path_suffix p
                   /\ path_stem p <> [])
         (get_code_files walk).
Proof.
  unfold get_code_files. rewrite get_code_files_fold. cbn [app].
  apply Forall_flat_map, Forall_forall. intros [[root dirs] files] _.
  apply Forall_map, Forall_forall. intros f Hf.
  apply filter_In in Hf. destruct Hf as [_ Hf].
  assert (Hin : In (path_suffix (path_join root f)) code_extensions).
  { apply existsb_str_eqb. exact Hf. }
  split; [exact Hin|]. split; [apply stem_suffix|].
  apply suffix_stem_nonnil. intros E. rewrite E in Hf. discriminate.
Qed.

(** X12.  On directory listings of plain names, [get_code_files] returns, in
    the order of the walk, every file whose own name has a code extension,
    joined to its directory, and nothing else; the names of the directories
    play no part. *)
Theorem get_code_files_selects (walk : list (str * list str * list str)) :
  (forall root dirs files file,
     In (root, dirs, files) walk -> In file files -> plain_name file = true) ->
  get_code_files walk
  = flat_map
      (fun '(root, _, files) =>
         map (path_join root) (filter has_code_extension files))
      walk.
Proof.
  intros Hp. unfold get_code_files. rewrite get_code_files_fold. cbn [app].
  induction walk as [|[[root dirs] files] walk IH]; [reflexivity|].
  cbn [flat_map]. rewrite IH.
  - f_equal. f_equal. apply filter_ext_in. intros f Hf.
    unfold has_code_extension, path_suffix.
    rewrite path_name_join; [reflexivity|].
    apply (Hp root dirs files f); [left; reflexivity | exact Hf].
  - intros r d fs f Hin Hf. apply (Hp r d fs f); [right; exact Hin | exact Hf].
Qed.

Lemma get_code_files_selects_witness :
  let walk := [ (lit "/tmp/repo", [lit "src.py"],
                 [lit "README.md"; lit "main.py"; lit ".py"; lit "Makefile"]);
                (lit "/tmp/repo/src.py", [], [lit "a.tar.js"; lit "B.PY"]) ] in
  (forall root dirs files file,
     In (root, dirs, files) walk -> In file files -> plain_name file = true)
  /\ get_code_files walk
     = [lit "/tmp/repo/main.py"; lit "/tmp/repo/src.py/a.tar.js"].
Proof.
  intros walk.
  assert (Hp : forall root dirs files file,
             In (root, dirs, files) walk -> In file files -> plain_name file = true).
  { intros root dirs files file [E | [E | []]] Hf; injection E as <- <- <-;
      cbn [In] in Hf; repeat (destruct Hf as [<- | Hf]; [reflexivity|]);
      destruct Hf. }
  split; [exact Hp|].
  rewrite (get_code_files_selects walk Hp). reflexivity.
Defined.

(** * Further properties of [crew] and [kickoff] *)

Lemma crew_loop_first_fail agents l1 name cfg l2 :
  forall st,
    (forall n c, In (n, c) l1 ->
       dict_get agents (agent c) <> None /\ expected_output c <> None) ->
    dict_get agents (agent cfg) = None ->
    for_each (add_task agents) (l1 ++ (name, cfg) :: l2) st
    = Raise (KeyError (agent cfg)).
Proof.
  induction l1 as [|[n c] l1 IH]; intros [tasks outs] Hr Hn.
  - cbn [app for_each]. unfold add_task, task_kwargs, dict_getitem.
    rewrite Hn. reflexivity.
  - cbn [app for_each].
    destruct (Hr n c (or_introl eq_refl)) as [Hw He].
    destruct (dict_get agents (agent c)) as [w|] eqn:Ew; [| congruence].
    destruct (expected_output c) as [e|] eqn:Ee; [| congruence].
    rewrite (add_task_ok _ _ _ n _ _ _ Ew Ee). cbn [bind].
    apply IH; [| exact Hn].
    intros n' c' Hin. apply (Hr n' c'). right. exact Hin.
Qed.

(** X13.  The build stops at the first task definition, in declaration
    order, whose agent name does not resolve, the definitions before it
    having an [expected_output] each, and raises the [KeyError] of that
    name, whatever that definition and those after it hold. *)
Theorem crew_first_unresolved agents_config tasks_config i name cfg :
  nth_error tasks_config i = Some (name, cfg) ->
  all_resolve agents_config (firstn i tasks_config) = true ->
  all_expected (firstn i tasks_config) = true ->
  resolves agents_config (agent cfg) = false ->
  crew agents_config tasks_config = Raise (KeyError (agent cfg)).
Proof.
  intros Hi Hpre Hexp Hn.
  destruct (nth_error_split _ _ Hi) as [l1 [l2 [E Hlen]]].
  rewrite E, firstn_app, <- Hlen, Nat.sub_diag, firstn_all in Hpre, Hexp.
  cbn [firstn] in Hpre, Hexp. rewrite app_nil_r in Hpre, Hexp.
  apply crew_raise. rewrite E.
  apply crew_loop_first_fail; [| apply resolves_false, Hn].
  intros n c Hin. split.
  - intros Hnone. apply build_agents_none in Hnone.
    exact (Hnone (all_resolve_true _ _ Hpre n c Hin)).
  - exact (all_expected_true _ Hexp n c Hin).
Qed.

Lemma crew_first_unresolved_witness :
  let late := [ (lit "A", demo_task "analyse" "analyst" None);
                (lit "B", bare_task "secure" "ghost");
                (lit "C", bare_task "report" "nobody") ] in
  (nth_error late 1 = Some (lit "B", bare_task "secure" "ghost")
   /\ all_resolve demo_agents (firstn 1 late) = true
   /\ all_expected (firstn 1 late) = true
   /\ resolves demo_agents (lit "ghost") = false)
  /\ crew demo_agents late = Raise (KeyError (lit "ghost")).
Proof.
  intros late. split; [repeat split|].
  exact (crew_first_unresolved demo_agents late 1 (lit "B")
           (bare_task "secure" "ghost") eq_refl eq_refl eq_refl eq_refl).
Defined.

Lemma dict_set_new {V} (d : dict V) k v :
  ~ In k (dict_keys d) -> dict_set d k v = d ++ [(k, v)].
Proof.
  induction d as [|[k0 v0] d IH]; intros H; [reflexivity|].
  cbn [dict_set app]. cbn [dict_keys map fst In] in H. fold (dict_keys d) in H.
  replace (str_eqb k0 k) with false.
  - rewrite IH; [reflexivity|]. intros Hin. apply H. right. exact Hin.
  - symmetry. apply str_eqb_neq. intros E. apply H. left. exact E.
Qed.

Lemma dict_keys_combine {V} (ks : list str) (vs : list V) :
  length ks = length vs -> dict_keys (combine ks vs) = ks.
Proof.
  revert vs. induction ks as [|k ks IH]; intros [|v vs] H; try discriminate;
    [reflexivity|].
  cbn [combine dict_keys map fst]. f_equal. apply IH. injection H as H. exact H.
Qed.

Lemma combine_snoc {A B} (l : list A) (l' : list B) a b :
  length l = length l' -> combine (l ++ [a]) (l' ++ [b]) = combine l l' ++ [(a, b)].
Proof.
  revert l'. induction l as [|x l IH]; intros [|y l'] H; try discriminate;
    [reflexivity|].
  cbn [app combine]. f_equal. apply IH. injection H as H. exact H.
Qed.

Lemma crew_loop_outputs agents rest :
  forall pre tasks tasks' outs',
    NoDup (dict_keys (pre ++ rest)) ->
    length tasks = length pre ->
    for_each (add_task agents) rest (tasks, combine (dict_keys pre) tasks)
    = Ok (tasks', outs') ->
    outs' = combine (dict_keys (pre ++ rest)) tasks'
    /\ length tasks' = length (pre ++ rest).
Proof.
  induction rest as [|[name cfg] rest IH]; intros pre tasks tasks' outs' Hnd Hlen Hrun.
  - cbn [for_each] in Hrun. injection Hrun as <- <-.
    rewrite app_nil_r. split; [reflexivity | exact Hlen].
  - cbn [for_each] in Hrun.
    destruct (add_task agents (tasks, combine (dict_keys pre) tasks) (name, cfg))
      as [st|e] eqn:Ea; [| discriminate].
    destruct (add_task_inv _ _ _ _ _ _ Ea) as [_ [u [_ [_ [_ [_ ->]]]]]].
    cbn [bind] in Hrun.
    assert (Hk : length (dict_keys pre) = length tasks).
    { unfold dict_keys. rewrite length_map. symmetry. exact Hlen. }
    assert (Hnew : ~ In name (dict_keys (combine (dict_keys pre) tasks))).
    { rewrite (dict_keys_combine _ _ Hk). unfold dict_keys in Hnd.
      rewrite map_app in Hnd. cbn [map fst] in Hnd.
      apply NoDup_remove_2 in Hnd. intros Hin. apply Hnd.
      apply in_or_app. left. exact Hin. }
    rewrite (dict_set_new _ _ _ Hnew), <- (combine_snoc _ _ _ _ Hk) in Hrun.
    replace (dict_keys pre ++ [name]) with (dict_keys (pre ++ [(name, cfg)])) in Hrun
      by (unfold dict_keys; rewrite map_app; reflexivity).
    assert (Ea' : pre ++ (name, cfg) :: rest = (pre ++ [(name, cfg)]) ++ rest)
      by (rewrite <- app_assoc; reflexivity).
    rewrite Ea' in Hnd |- *.
    apply (IH _ _ _ _ Hnd) in Hrun; [exact Hrun|].
    rewrite !length_app, Hlen. reflexivity.
Qed.

(** X14.  With distinct task names, the [task_outputs] that [crew] returns
    beside the crew pairs each task name with its unit, in declaration
    order: its keys are the task names and its values the plan. *)
Theorem task_outputs_follow_plan agents_config tasks_config c task_outputs :
  NoDup (dict_keys tasks_config) ->
  crew agents_config tasks_config = Ok (c, task_outputs) ->
  task_outputs = combine (dict_keys tasks_config) (crew_tasks c)
  /\ dict_keys task_outputs = dict_keys tasks_config
  /\ dict_values task_outputs = crew_tasks c.
Proof.
  intros Hnd Hrun. destruct (crew_inv _ _ _ _ Hrun) as [E _].
  destruct (crew_loop_outputs (build_agents agents_config) tasks_config
              [] [] (crew_tasks c) task_outputs Hnd eq_refl E) as [Ho Hl].
  cbn [app] in Ho, Hl.
  assert (Hk : length (dict_keys tasks_config) = length (crew_tasks c)).
  { unfold dict_keys. rewrite length_map. symmetry. exact Hl. }
  split; [exact Ho|]. rewrite Ho. split.
  - apply dict_keys_combine, Hk.
  - unfold dict_values. clear -Hk. revert Hk. generalize (crew_tasks c) as tasks.
    induction (dict_keys tasks_config) as [|k ks IH]; intros [|t ts] H;
      try discriminate; [reflexivity|].
    cbn [combine map snd]. f_equal. apply IH. injection H as H. exact H.
Qed.

Lemma task_outputs_follow_plan_witness :
  exists c task_outputs,
    (NoDup (dict_keys demo_tasks)
     /\ crew demo_agents demo_tasks = Ok (c, task_outputs))
    /\ dict_keys task_outputs = [lit "A"; lit "B"; lit "C"]
    /\ dict_values task_outputs = crew_tasks c.
Proof.
  assert (Hn : NoDup (dict_keys demo_tasks)) by (apply distinct_NoDup; reflexivity).
  destruct (crew demo_agents demo_tasks) as [[c outs]|e] eqn:E;
    [| vm_compute in E; discriminate].
  exists c, outs.
  destruct (task_outputs_follow_plan demo_agents demo_tasks c outs Hn E)
    as [_ [Hk Hv]].
  split; [split; [exact Hn | reflexivity]|]. split; [exact Hk | exact Hv].
Defined.

Lemma build_agents_fold_map (l : dict AgentConfig) (acc : dict Agent) :
  NoDup (dict_keys acc ++ dict_keys l) ->
  fold_left
    (fun agents '(agent_name, agent_config) =>
       dict_set agents agent_name
         (mkAgent (role agent_config) (goal agent_config)
                  (backstory agent_config) true)) l acc
  = acc ++ map (fun item => (fst item, agent_of (snd item))) l.
Proof.
  revert acc. induction l as [|[n c] l IH]; intros acc Hnd.
  - cbn. symmetry. apply app_nil_r.
  - cbn [fold_left map fst snd].
    cbn [dict_keys map fst] in Hnd. fold (dict_keys l) in Hnd.
    rewrite dict_set_new by (apply NoDup_remove_2 in Hnd; intros H; apply Hnd;
                             apply in_or_app; left; exact H).
    rewrite IH.
    + rewrite <- app_assoc. reflexivity.
    + unfold dict_keys at 1. rewrite map_app. cbn [map fst]. fold (dict_keys acc).
      rewrite <- app_assoc. exact Hnd.
Qed.

(** X15.  With distinct agent names, the crew that [crew] returns has one
    agent per agent definition, in declaration order, each with the role,
    goal and backstory of its definition, whether a task uses it or not. *)
Theorem crew_agents_follow_config agents_config tasks_config c task_outputs :
  NoDup (dict_keys agents_config) ->
  crew agents_config tasks_config = Ok (c, task_outputs) ->
  crew_agents c = map agent_of (dict_values agents_config)
  /\ length (crew_agents c) = length agents_config.
Proof.
  intros Hnd Hrun. destruct (crew_inv _ _ _ _ Hrun) as [_ Ha]. rewrite Ha.
  unfold build_agents. rewrite build_agents_fold_map by exact Hnd.
  cbn [app]. unfold dict_values. rewrite !map_map. cbn [snd].
  split; [reflexivity|]. apply length_map.
Qed.

Lemma crew_agents_follow_config_witness :
  exists c task_outputs,
    (NoDup (dict_keys demo_agents)
     /\ crew demo_agents demo_tasks = Ok (c, task_outputs))
    /\ crew_agents c = map agent_of (dict_values demo_agents).
Proof.
  assert (Hn : NoDup (dict_keys demo_agents)) by (apply distinct_NoDup; reflexivity).
  destruct (crew demo_agents demo_tasks) as [[c outs]|e] eqn:E;
    [| vm_compute in E; discriminate].
  exists c, outs.
  destruct (crew_agents_follow_config demo_agents demo_tasks c outs Hn E) as [Ha _].
  split; [split; [exact Hn | reflexivity] | exact Ha].
Defined.

Lemma crew_fails agents_config tasks_config :
  all_resolve agents_config tasks_config = false ->
  all_expected tasks_config = true ->
  exists name cfg,
    In (name, cfg) tasks_config
    /\ resolves agents_config (agent cfg) = false
    /\ crew agents_config tasks_config = Raise (KeyError (agent cfg)).
Proof.
  intros Hf He. apply all_resolve_false in Hf. destruct Hf as [n [c [Hin Hc]]].
  destruct (crew_loop_fail (build_agents agents_config) tasks_config ([], []))
    as [name [cfg [Hin' [Hn Hrun]]]].
  - exact (all_expected_true _ He).
  - exists n, c. split; [exact Hin | apply resolves_false, Hc].
  - exists name, cfg. split; [exact Hin'|].
    split; [apply resolves_none, Hn | apply crew_raise, Hrun].
Qed.

(** X16.  When some agent name does not resolve, every task definition
    having an [expected_output], [kickoff] raises the [KeyError] of the
    build before the crew is run: the outcome is the same whatever the crew
    and the writing of the report would do, and no report is saved. *)
Theorem kickoff_unresolved unicode_alnum agents_config tasks_config :
  all_resolve agents_config tasks_config = false ->
  all_expected tasks_config = true ->
  exists name cfg,
    In (name, cfg) tasks_config
    /\ resolves agents_config (agent cfg) = false
    /\ forall run_crew docx timestamp inputs,
         kickoff unicode_alnum agents_config tasks_config run_crew docx
           timestamp inputs
         = Raise (KeyError (agent cfg)).
Proof.
  intros Hf He. destruct (crew_fails _ _ Hf He) as [name [cfg [Hin [Hn Hrun]]]].
  exists name, cfg. split; [exact Hin|]. split; [exact Hn|].
  intros run_crew docx timestamp inputs. unfold kickoff. cbv zeta.
  rewrite Hrun. reflexivity.
Qed.

Lemma kickoff_unresolved_witness :
  (all_resolve demo_agents ghost_tasks = false
   /\ all_expected ghost_tasks = true)
  /\ forall run_crew docx timestamp inputs,
       kickoff (fun _ => false) demo_agents ghost_tasks run_crew docx timestamp
         inputs
       = Raise (KeyError (lit "ghost")).
Proof.
  split; [split; reflexivity|].
  destruct (kickoff_unresolved (fun _ => false) demo_agents ghost_tasks
              eq_refl eq_refl)
    as [name [cfg [Hin [Hn H]]]].
  intros run_crew docx timestamp inputs.
  rewrite (H run_crew docx timestamp inputs). f_equal. f_equal.
  destruct Hin as [E | [E | []]]; injection E as <- <-;
    [vm_compute in Hn; discriminate | reflexivity].
Defined.

Lemma bind_eq {A B} (m m' : result A) (k : A -> result B) :
  m = m' -> bind m k = bind m' k.
Proof. intros ->. reflexivity. Qed.

(** X17.  When the build succeeds, [kickoff] runs the crew on inputs whose
    six output slots are empty whatever the caller passed.  An exception of
    the crew leaves [kickoff] as it is.  A truthy result is handed to
    [save_report] as its [str()] text, under the name derived from the
    [file_name] of the caller's inputs: when the document is written the
    text comes back, and when writing raises, that exception leaves
    [kickoff].  A falsy result comes back as it is and nothing is
    written. *)
Theorem kickoff_saves unicode_alnum agents_config tasks_config run_crew docx
    timestamp inputs c task_outputs :
  crew agents_config tasks_config = Ok (c, task_outputs) ->
  let given := match inputs with Some d => d | None => [] end in
  let hint := dict_get_default given (lit "file_name") (Some []) in
  let name := docx_name unicode_alnum (lit "code_analysis_report") hint timestamp in
  let doc r :=
    Heading (lit "Code Analysis Report") 0
    :: Paragraph (hd [] (split_go (NL :: lit "# ") None 0 (py_str r)))
    :: flat_map section_blocks (tl (split_go (NL :: lit "# ") None 0 (py_str r))) in
  let outcome :=
    kickoff unicode_alnum agents_config tasks_config run_crew docx timestamp
      inputs in
  (forall e, run_crew c (initial_inputs given) = Raise e -> outcome = Raise e)
  /\ (forall r, run_crew c (initial_inputs given) = Ok r -> truthy r = false ->
        outcome = Ok (r, None))
  /\ (forall r, run_crew c (initial_inputs given) = Ok r -> truthy r = true ->
        docx name (doc r) = Ok tt ->
        outcome = Ok (VStr (py_str r), Some (name, doc r)))
  /\ (forall r e, run_crew c (initial_inputs given) = Ok r -> truthy r = true ->
        docx name (doc r) = Raise e -> outcome = Raise e)
  /\ Forall (fun key => dict_get (initial_inputs given) key = Some (Some []))
       [ lit "code_analysis_output"; lit "security_analysis_output";
         lit "performance_analysis_output"; lit "code_test_output";
         lit "best_practices_output"; lit "final_report_task" ].
Proof.
  intros Hrun. cbv zeta.
  split.
  { intros e He. unfold kickoff. cbv zeta. rewrite Hrun. cbn [bind].
    etransitivity; [apply bind_eq; exact He | reflexivity]. }
  split.
  { intros r Hr Ht. unfold kickoff. cbv zeta. rewrite Hrun. cbn [bind].
    etransitivity; [apply bind_eq; exact Hr|]. cbn [bind]. rewrite Ht.
    reflexivity. }
  split.
  { intros r Hr Ht Hd. unfold kickoff. cbv zeta. rewrite Hrun. cbn [bind].
    etransitivity; [apply bind_eq; exact Hr|]. cbn [bind]. rewrite Ht.
    cbn [py_str]. rewrite save_report_blocks. cbv zeta. cbn [bind].
    etransitivity; [apply bind_eq; exact Hd | reflexivity]. }
  split.
  { intros r e Hr Ht Hd. unfold kickoff. cbv zeta. rewrite Hrun. cbn [bind].
    etransitivity; [apply bind_eq; exact Hr|]. cbn [bind]. rewrite Ht.
    cbn [py_str]. rewrite save_report_blocks. cbv zeta. cbn [bind].
    etransitivity; [apply bind_eq; exact Hd | reflexivity]. }
  repeat constructor.
Qed.

Lemma kickoff_saves_witness :
  let run_crew := fun (_ : Crew) (_ : dict (option str)) =>
                    Ok (VObj (lit "all good") None) in
  let docx := fun (_ : str) (_ : document) => Ok tt in
  let inputs := Some [ (lit "file_name", Some (lit "/tmp/x/app.py"));
                       (lit "code_analysis_output", Some (lit "stale")) ] in
  exists c task_outputs,
    crew demo_agents demo_tasks = Ok (c, task_outputs)
    /\ kickoff (fun _ => false) demo_agents demo_tasks run_crew docx (lit "ts")
         inputs
       = Ok (VStr (lit "all good"),
             Some (lit "app_analysis_ts.docx",
                   [ Heading (lit "Code Analysis Report") 0;
                     Paragraph (lit "all good") ])).
Proof.
  intros run_crew docx inputs.
  destruct (crew demo_agents demo_tasks) as [[c outs]|e] eqn:E;
    [| vm_compute in E; discriminate].
  exists c, outs. split; [reflexivity|].
  destruct (kickoff_saves (fun _ => false) demo_agents demo_tasks run_crew docx
              (lit "ts") inputs c outs E) as [_ [_ [H _]]].
  rewrite (H (VObj (lit "all good") None) eq_refl eq_refl eq_refl). reflexivity.
Defined.

(** * [run] on a repository *)

Lemma process_files_skip read kick f rest result calls :
  readable read f = false ->
  process_files read kick (f :: rest) result calls
  = process_files read kick rest result calls.
Proof.
  unfold readable. cbn [process_files].
  destruct (read f) as [[|c t]|]; [reflexivity | discriminate | reflexivity].
Qed.

Lemma process_files_ok read kick f rest result calls r :
  readable read f = true -> kick (inputs_of read f) = Ok r ->
  process_files read kick (f :: rest) result calls
  = process_files read kick rest (Some r) (calls ++ [inputs_of read f]).
Proof.
  unfold readable, inputs_of. cbn [process_files].
  destruct (read f) as [[|c t]|]; try discriminate.
  intros _ H. cbv zeta. rewrite H. reflexivity.
Qed.

Lemma process_files_raise read kick f rest result calls e :
  readable read f = true -> kick (inputs_of read f) = Raise e ->
  process_files read kick (f :: rest) result calls
  = (Raised (FromKickoff e), calls ++ [inputs_of read f]).
Proof.
  unfold readable, inputs_of. cbn [process_files].
  destruct (read f) as [[|c t]|]; try discriminate.
  intros _ H. cbv zeta. rewrite H. reflexivity.
Qed.

Lemma process_files_app read kick l1 l2 :
  forall result calls,
    (forall f, In f (filter (readable read) l1) ->
       exists r, kick (inputs_of read f) = Ok r) ->
    process_files read kick (l1 ++ l2) result calls
    = process_files read kick l2 (result_after read kick l1 result)
        (calls ++ map (inputs_of read) (filter (readable read) l1)).
Proof.
  induction l1 as [|f l1 IH]; intros result calls Hok.
  - cbn. rewrite app_nil_r. reflexivity.
  - unfold result_after. cbn [app filter] in *.
    destruct (readable read f) eqn:Er.
    + destruct (Hok f (or_introl eq_refl)) as [r Hr].
      rewrite (process_files_ok _ _ _ _ _ _ r Er Hr).
      rewrite IH by (intros g Hg; apply Hok; right; exact Hg).
      unfold result_after. cbn [fold_left map]. rewrite Hr, <- app_assoc.
      reflexivity.
    + rewrite (process_files_skip _ _ _ _ _ _ Er). apply IH. exact Hok.
Qed.

Lemma run_github clone walk read kick url file_path repo_path :
  url <> [] -> clone url = Some repo_path ->
  run clone walk read kick (Some url) file_path
  = process_files read kick (get_code_files (walk repo_path)) None [].
Proof.
  intros Hu Hc. unfold run. destruct url as [|c t]; [congruence|].
  destruct file_path; rewrite Hc; reflexivity.
Qed.

(** X18.  On a repository where no collected file can be read with a
    content that is not empty (one without code files, for instance), [run]
    calls [kickoff] on nothing and, instead of returning, raises the
    [UnboundLocalError] of its unbound [result]. *)
Theorem run_without_readable_file clone walk read kick url file_path repo_path :
  url <> [] -> clone url = Some repo_path ->
  (forall f, In f (get_code_files (walk repo_path)) -> readable read f = false) ->
  run clone walk read kick (Some url) file_path = (Raised UnboundResult, []).
Proof.
  intros Hu Hc Hr. rewrite (run_github _ _ _ _ _ _ _ Hu Hc).
  induction (get_code_files (walk repo_path)) as [|f fs IH]; [reflexivity|].
  rewrite process_files_skip by (apply Hr; left; reflexivity).
  apply IH. intros g Hg. apply Hr. right. exact Hg.
Qed.

Lemma run_without_readable_file_witness :
  let clone := fun _ : str => Some (lit "/tmp/repo") in
  let walk := fun _ : str =>
                [(lit "/tmp/repo", @nil str, [lit "README.md"; lit "empty.py"])] in
  let read := fun _ : str => Some (@nil char) in
  let kick := fun _ : dict (option str) => Ok (VStr (lit "report")) in
  (lit "https://example.org/r" <> []
   /\ forall f, In f (get_code_files (walk (lit "/tmp/repo"))) ->
                readable read f = false)
  /\ run clone walk read kick (Some (lit "https://example.org/r")) None
     = (Raised UnboundResult, []).
Proof.
  intros clone walk read kick.
  assert (Hu : lit "https://example.org/r" <> []) by discriminate.
  assert (Hr : forall f, In f (get_code_files (walk (lit "/tmp/repo"))) ->
                         readable read f = false) by (intros f _; reflexivity).
  split; [split; assumption|].
  exact (run_without_readable_file clone walk read kick _ None (lit "/tmp/repo")
           Hu eq_refl Hr).
Defined.

(** X19.  On a repository where [kickoff] raises on no file, [run] calls it
    once on each collected file with a content that is not empty, in the
    order of the walk, passing that content and the [str()] of the path,
    and returns the result of the last of these calls alone. *)
Theorem run_returns_last clone walk read kick url file_path repo_path init last_file :
  url <> [] -> clone url = Some repo_path ->
  filter (readable read) (get_code_files (walk repo_path)) = init ++ [last_file] ->
  (forall f, In f (init ++ [last_file]) -> exists r, kick (inputs_of read f) = Ok r) ->
  exists r,
    kick (inputs_of read last_file) = Ok r
    /\ run clone walk read kick (Some url) file_path
       = (Returned r, map (inputs_of read) (init ++ [last_file])).
Proof.
  intros Hu Hc Hf Hok. rewrite (run_github _ _ _ _ _ _ _ Hu Hc).
  destruct (Hok last_file) as [r Hr]; [apply in_or_app; right; left; reflexivity|].
  exists r. split; [exact Hr|].
  rewrite <- (app_nil_r (get_code_files (walk repo_path))).
  rewrite process_files_app by (rewrite Hf; exact Hok).
  unfold result_after. rewrite Hf, fold_left_app. cbn [fold_left process_files app].
  rewrite Hr. reflexivity.
Qed.

Lemma run_returns_last_witness :
  let clone := fun _ : str => Some (lit "/tmp/repo") in
  let walk := fun _ : str =>
                [(lit "/tmp/repo", @nil str, [lit "a.py"; lit "b.md"; lit "c.js"])] in
  let read := fun p : str => Some p in
  let kick := fun inputs : dict (option str) =>
                Ok (VStr (match dict_get inputs (lit "file_name") with
                          | Some (Some name) => name
                          | _ => []
                          end)) in
  filter (readable read) (get_code_files (walk (lit "/tmp/repo")))
  = [lit "/tmp/repo/a.py"] ++ [lit "/tmp/repo/c.js"]
  /\ run clone walk read kick (Some (lit "git://host/r")) None
     = (Returned (VStr (lit "/tmp/repo/c.js")),
        map (inputs_of read) [lit "/tmp/repo/a.py"; lit "/tmp/repo/c.js"]).
Proof.
  intros clone walk read kick.
  assert (Hf : filter (readable read) (get_code_files (walk (lit "/tmp/repo")))
               = [lit "/tmp/repo/a.py"] ++ [lit "/tmp/repo/c.js"]) by reflexivity.
  split; [exact Hf|].
  destruct (run_returns_last clone walk read kick (lit "git://host/r") None
              (lit "/tmp/repo") [lit "/tmp/repo/a.py"] (lit "/tmp/repo/c.js"))
    as [r [Hr Hrun]].
  - discriminate.
  - reflexivity.
  - exact Hf.
  - intros f _. eexists. reflexivity.
  - etransitivity; [exact Hrun|]. vm_compute in Hr. injection Hr as <-.
    reflexivity.
Defined.

(** X20.  When [kickoff] raises on a file, [run] raises that exception at
    once: the collected files after it are neither read into a call nor
    analysed, whatever they are. *)
Theorem run_stops_at_failure clone walk read kick url file_path repo_path
    before failing after e :
  url <> [] -> clone url = Some repo_path ->
  get_code_files (walk repo_path) = before ++ failing :: after ->
  (forall f, In f (filter (readable read) before) ->
     exists r, kick (inputs_of read f) = Ok r) ->
  readable read failing = true -> kick (inputs_of read failing) = Raise e ->
  run clone walk read kick (Some url) file_path
  = (Raised (FromKickoff e),
     map (inputs_of read) (filter (readable read) before)
     ++ [inputs_of read failing]).
Proof.
  intros Hu Hc Hf Hok Hr He. rewrite (run_github _ _ _ _ _ _ _ Hu Hc), Hf.
  rewrite process_files_app by exact Hok.
  apply process_files_raise; assumption.
Qed.

Lemma run_stops_at_failure_witness :
  let clone := fun _ : str => Some (lit "/tmp/repo") in
  let walk := fun _ : str =>
                [(lit "/tmp/repo", @nil str, [lit "a.py"; lit "b.py"; lit "c.py"])] in
  let read := fun p : str => Some p in
  let kick := fun inputs : dict (option str) =>
                match dict_get inputs (lit "file_name") with
                | Some (Some name) =>
                    if str_eqb name (lit "/tmp/repo/b.py")
                    then Raise (KeyError (lit "ghost"))
                    else Ok (VStr name)
                | _ => Ok (VStr [])
                end in
  get_code_files (walk (lit "/tmp/repo"))
  = [lit "/tmp/repo/a.py"] ++ lit "/tmp/repo/b.py" :: [lit "/tmp/repo/c.py"]
  /\ run clone walk read kick (Some (lit "git://host/r")) None
     = (Raised (FromKickoff (KeyError (lit "ghost"))),
        [inputs_of read (lit "/tmp/repo/a.py"); inputs_of read (lit "/tmp/repo/b.py")]).
Proof.
  intros clone walk read kick.
  assert (Hf : get_code_files (walk (lit "/tmp/repo"))
               = [lit "/tmp/repo/a.py"] ++ lit "/tmp/repo/b.py" :: [lit "/tmp/repo/c.py"])
    by reflexivity.
  split; [exact Hf|].
  etransitivity;
    [apply (run_stops_at_failure clone walk read kick (lit "git://host/r") None
              (lit "/tmp/repo") [lit "/tmp/repo/a.py"] (lit "/tmp/repo/b.py")
              [lit "/tmp/repo/c.py"] (KeyError (lit "ghost")))
    | reflexivity].
  - discriminate.
  - reflexivity.
  - exact Hf.
  - intros f Hin. vm_compute in Hin. destruct Hin as [<- | []].
    eexists. reflexivity.
  - reflexivity.
  - reflexivity.
Defined.

(** * Reading back a text made of sections *)

Lemma marker_not_across x t rest :
  starts_with (NL :: lit "# ") ((x :: t) ++ (NL :: lit "# ") ++ rest)
  = starts_with (NL :: lit "# ") (x :: t).
Proof.
  destruct t as [|y [|z t]]; cbn [app starts_with lit map list_ascii_of_string].
  - destruct (NL =? x)%N; reflexivity.
  - destruct (NL =? x)%N; [| reflexivity].
    destruct (N_of_ascii "#" =? y)%N; reflexivity.
  - reflexivity.
Qed.

Lemma split_go_marker chunk rest :
  occurs (NL :: lit "# ") chunk = false ->
  split_go (NL :: lit "# ") None 0 (chunk ++ (NL :: lit "# ") ++ rest)
  = chunk :: split_go (NL :: lit "# ") None 0 rest.
Proof.
  induction chunk as [|x t IH]; intros H.
  - cbn [app split_go may_split starts_with lit map list_ascii_of_string
         option_map length pred andb].
    rewrite !N.eqb_refl. reflexivity.
  - cbn [occurs] in H. apply orb_false_iff in H. destruct H as [H1 H2].
    change (split_go (NL :: lit "# ") None 0 ((x :: t) ++ (NL :: lit "# ") ++ rest))
      with (if may_split None
               && starts_with (NL :: lit "# ") ((x :: t) ++ (NL :: lit "# ") ++ rest)
            then [] :: split_go (NL :: lit "# ") (option_map pred None)
                         (pred (length (NL :: lit "# ")))
                         (t ++ (NL :: lit "# ") ++ rest)
            else push x (split_go (NL :: lit "# ") None 0
                           (t ++ (NL :: lit "# ") ++ rest))).
    rewrite marker_not_across, H1, (IH H2). reflexivity.
Qed.

Lemma split_go_render lead sections :
  occurs (NL :: lit "# ") lead = false ->
  forallb well_formed_section sections = true ->
  split_go (NL :: lit "# ") None 0 (render lead sections)
  = lead :: map (fun sec => fst sec ++ NL :: snd sec) sections.
Proof.
  revert lead. induction sections as [|[title body] rest IH]; intros lead Hl Hs.
  - unfold render. cbn [flat_map map]. rewrite app_nil_r.
    apply split_go_no_occurrence, Hl.
  - cbn [forallb] in Hs. apply andb_true_iff in Hs. destruct Hs as [Hw Hs].
    unfold well_formed_section in Hw. cbn [fst snd] in Hw.
    apply andb_true_iff in Hw. destruct Hw as [Hw _].
    apply andb_true_iff in Hw. destruct Hw as [_ Ho].
    apply negb_true_iff in Ho.
    unfold render. cbn [flat_map map fst snd].
    replace (lead ++ ((NL :: lit "# ") ++ title ++ NL :: body)
                  ++ flat_map (fun sec => (NL :: lit "# ") ++ fst sec ++ NL :: snd sec) rest)
      with (lead ++ (NL :: lit "# ") ++ render (title ++ NL :: body) rest)
      by (unfold render; rewrite <- !app_assoc; reflexivity).
    rewrite (split_go_marker _ _ Hl), (IH _ Ho Hs). reflexivity.
Qed.

Lemma section_blocks_render sections :
  forallb well_formed_section sections = true ->
  flat_map section_blocks (map (fun sec => fst sec ++ NL :: snd sec) sections)
  = flat_map (fun sec => [Heading (fst sec) 1; Paragraph (snd sec)]) sections.
Proof.
  induction sections as [|[title body] rest IH]; intros Hs; [reflexivity|].
  cbn [forallb] in Hs. apply andb_true_iff in Hs. destruct Hs as [Hw Hs].
  cbn [map flat_map fst snd]. rewrite (IH Hs). f_equal.
  unfold well_formed_section in Hw. cbn [fst snd] in Hw.
  apply andb_true_iff in Hw. destruct Hw as [Hw Hb].
  apply andb_true_iff in Hw. destruct Hw as [Ht _].
  apply negb_true_iff in Ht, Hb.
  unfold section_blocks.
  rewrite Hb, (first_line_app _ _ Ht), (after_first_line_app _ _ Ht). reflexivity.
Qed.

(** X21.  A text made of a lead without newline-hash-space and of
    well-formed sections is read back as it was made: the lead as the first
    paragraph, then for each section its title as a heading and its body as
    a paragraph, in order. *)
Theorem save_report_reads_sections
    unicode_alnum lead sections filename_base file_name timestamp :
  occurs (NL :: lit "# ") lead = false ->
  forallb well_formed_section sections = true ->
  save_report unicode_alnum (render lead sections) filename_base file_name timestamp
  = Ok (docx_name unicode_alnum filename_base file_name timestamp,
        Heading (lit "Code Analysis Report") 0 :: Paragraph lead
        :: flat_map (fun sec => [Heading (fst sec) 1; Paragraph (snd sec)]) sections).
Proof.
  intros Hl Hs. rewrite save_report_blocks. cbv zeta.
  rewrite (split_go_render _ _ Hl Hs). cbn [hd tl].
  rewrite (section_blocks_render _ Hs). reflexivity.
Qed.

Lemma save_report_reads_sections_witness :
  let sections := [ (lit "Security", lit "found nothing");
                    (lit "Performance", lit "fine" ++ [NL] ++ lit "#really") ] in
  (occurs (NL :: lit "# ") (lit "lead text") = false
   /\ forallb well_formed_section sections = true)
  /\ save_report (fun _ => false) (render (lit "lead text") sections)
       (lit "r") None (lit "ts")
     = Ok (lit "r_ts.docx",
           [ Heading (lit "Code Analysis Report") 0; Paragraph (lit "lead text");
             Heading (lit "Security") 1; Paragraph (lit "found nothing");
             Heading (lit "Performance") 1;
             Paragraph (lit "fine" ++ [NL] ++ lit "#really") ]).
Proof.
  intros sections. split; [split; reflexivity|].
  etransitivity;
    [apply (save_report_reads_sections (fun _ => false) (lit "lead text") sections
              (lit "r") None (lit "ts")); reflexivity
    | reflexivity].
Defined.
